(** * Service and operation extraction for OpenAPI 3.1 documents

    A shallow embedding of [src/parse/services/v3_1.ts] and the properties its
    specification states about it.

    Conventions of the embedding.
    - A JavaScript string is a [string]; its characters are the code units
      0..255.  The regular expressions of the source are written without the
      [u] flag, so [\w], [\d], [a-zA-Z] are exactly the ASCII classes below.
    - A JavaScript object used as a map is an association list in the order
      in which [Object.keys], [Object.entries] and [for .. in] enumerate its
      own properties; a well-formed object has no repeated key.
    - A [number] that holds a status code is a [Z].
    - [x || null], [x === true] and the truthiness tests of the source are
      written out on [option] values. *)

From Stdlib Require Import List String Ascii ZArith Bool Lia Arith PeanoNat.
From Stdlib Require Import Permutation Sorted.
Import ListNotations.

Open Scope string_scope.
Open Scope list_scope.
Open Scope nat_scope.

Set Implicit Arguments.

(** ** Characters and strings *)

Module Chars.

Definition chars := list ascii.

Definition codeOf (c : ascii) : nat := nat_of_ascii c.

Definition isUpper (c : ascii) : bool := (65 <=? codeOf c) && (codeOf c <=? 90).
Definition isLower (c : ascii) : bool := (97 <=? codeOf c) && (codeOf c <=? 122).
(** [/[a-zA-Z]/] *)
Definition isLetter (c : ascii) : bool := isUpper c || isLower c.
(** [/\d/], [/[0-9]/] *)
Definition isDigit (c : ascii) : bool := (48 <=? codeOf c) && (codeOf c <=? 57).
Definition isAlnum (c : ascii) : bool := isLetter c || isDigit c.
(** [/\w/] *)
Definition isWord (c : ascii) : bool := isAlnum c || Ascii.eqb c "_".
(** [/[\w-]/] *)
Definition isWordOrDash (c : ascii) : bool := isWord c || Ascii.eqb c "-".
(** [/[_.\- ]/], the separators of the camel-casing *)
Definition isSeparator (c : ascii) : bool :=
  Ascii.eqb c "_" || Ascii.eqb c "." || Ascii.eqb c "-" || Ascii.eqb c " ".
(** White space and line terminators removed by [String.prototype.trim] and
    skipped by [parseInt]: TAB, LF, VT, FF, CR, SP, NBSP. *)
Definition isSpace (c : ascii) : bool :=
  ((9 <=? codeOf c) && (codeOf c <=? 13)) || (codeOf c =? 32) || (codeOf c =? 160).
(** The characters [.] does not match: LF and CR. *)
Definition isLineTerminator (c : ascii) : bool := (codeOf c =? 10) || (codeOf c =? 13).

(** [toLowerCase] and [toUpperCase] on one character (ASCII letters; other
    characters are left as they are). *)
Definition toLower (c : ascii) : ascii :=
  if isUpper c then ascii_of_nat (codeOf c + 32) else c.
Definition toUpper (c : ascii) : ascii :=
  if isLower c then ascii_of_nat (codeOf c - 32) else c.

Fixpoint dropWhile (p : ascii -> bool) (l : chars) : chars :=
  match l with
  | [] => []
  | c :: r => if p c then dropWhile p r else l
  end.

Definition trimStart (l : chars) : chars := dropWhile isSpace l.
Definition trim (l : chars) : chars := rev (dropWhile isSpace (rev (trimStart l))).

Fixpoint startsWith (p l : chars) : option chars :=
  match p, l with
  | [], _ => Some l
  | a :: p', b :: l' => if Ascii.eqb a b then startsWith p' l' else None
  | _ :: _, [] => None
  end.

(** [s.split(sep)] for a one-character separator. *)
Fixpoint splitOn (sep : ascii) (l : chars) : list chars :=
  match l with
  | [] => [[]]
  | c :: r =>
      if Ascii.eqb c sep then [] :: splitOn sep r
      else match splitOn sep r with
           | [] => [[c]]
           | seg :: segs => (c :: seg) :: segs
           end
  end.

End Chars.
Import Chars.

Definition ofString (s : string) : chars := list_ascii_of_string s.
Definition toString (l : chars) : string := string_of_list_ascii l.

Definition strTrim (s : string) : string := toString (trim (ofString s)).
Definition strLower (s : string) : string := toString (map toLower (ofString s)).
Definition strUpper (s : string) : string := toString (map toUpper (ofString s)).
Definition strSplit (sep : ascii) (s : string) : list string :=
  map toString (splitOn sep (ofString s)).
Definition strStartsWith (p s : string) : bool :=
  match startsWith (ofString p) (ofString s) with Some _ => true | None => false end.

(** [list.includes(s)] on strings. *)
Definition includes (l : list string) (s : string) : bool :=
  existsb (String.eqb s) l.

(** Truthiness of a string that may be absent. *)
Definition truthy (o : option string) : bool :=
  match o with
  | Some s => negb (String.eqb s "")
  | None => false
  end.

(** [x || null] on a string that may be absent. *)
Definition orNull (o : option string) : option string :=
  if truthy o then o else None.

(** [x === true] on a boolean that may be absent. *)
Definition isTrue (o : option bool) : bool :=
  match o with Some true => true | _ => false end.

(** ** Identifier sanitizer *)

Module CamelCase.

(** Modelled from the spec: the camel-case conversion (the [camelcase]
    package, pinned at 5.3.1 in [package.json]) is a dependency whose code is
    not part of the sources.  Section 4.1 of the specification describes it:
    the first segment is lower-cased, the segment boundaries are removed and
    the character after each boundary is capitalized.  The definitions below
    follow the package step by step on ASCII text: [trim], the two short-input
    cases, [preserveCamelCase] when the input has an upper-case letter, removal
    of the leading separators, [toLowerCase], then the two global
    replacements. *)

(** [string.slice(0, i - 1) + '-' + string.slice(i - 1)] on the reversed
    prefix already scanned. *)
Definition insertBeforeLast (out : chars) : chars :=
  match out with
  | [] => ["-"%char]
  | prev :: before => prev :: "-"%char :: before
  end.

(** The loop of [preserveCamelCase]; [out] is the scanned prefix, reversed.
    The second branch inserts the dash before the previous character and the
    loop then visits the current character once more, which lands in the
    third branch: both visits are taken in one step here. *)
Fixpoint preserveCamelCaseLoop (rest out : chars)
    (isLastCharLower isLastCharUpper isLastLastCharUpper : bool) : chars :=
  match rest with
  | [] => rev out
  | c :: rest' =>
      if isLastCharLower && isLetter c && Ascii.eqb (toUpper c) c then
        preserveCamelCaseLoop rest' (c :: "-"%char :: out) false true isLastCharUpper
      else if isLastCharUpper && isLastLastCharUpper && isLetter c
              && Ascii.eqb (toLower c) c then
        preserveCamelCaseLoop rest' (c :: insertBeforeLast out)
          (Ascii.eqb (toLower c) c && negb (Ascii.eqb (toUpper c) c))
          (Ascii.eqb (toUpper c) c && negb (Ascii.eqb (toLower c) c))
          false
      else
        preserveCamelCaseLoop rest' (c :: out)
          (Ascii.eqb (toLower c) c && negb (Ascii.eqb (toUpper c) c))
          (Ascii.eqb (toUpper c) c && negb (Ascii.eqb (toLower c) c))
          isLastCharUpper
  end.

Definition preserveCamelCase (l : chars) : chars :=
  preserveCamelCaseLoop l [] false false false.

(** What a run of separators that is followed by a character outside [\w]
    becomes under [/[_.\- ]+(\w|$)/g]: the match backtracks to the last
    underscore of the run that has a separator before it, and that underscore
    is the captured group. *)
Fixpoint afterLastUnderscore (run : chars) : option chars :=
  match run with
  | [] => None
  | c :: r =>
      match afterLastUnderscore r with
      | Some t => Some t
      | None => if Ascii.eqb c "_" then Some r else None
      end
  end.

Definition backtrackRun (run : chars) : chars :=
  match run with
  | [] => []
  | c :: r =>
      match afterLastUnderscore r with
      | Some t => "_"%char :: t
      | None => run
      end
  end.

(** [.replace(/[_.\- ]+(\w|$)/g, (_, p1) => p1.toUpperCase())]; [run] is the
    run of separators being read. *)
Fixpoint replaceSeparators (run : chars) (l : chars) : chars :=
  match l with
  | [] => []
  | c :: r =>
      if isSeparator c then replaceSeparators (run ++ [c]) r
      else match run with
           | [] => c :: replaceSeparators [] r
           | _ :: _ =>
               if isWord c then toUpper c :: replaceSeparators [] r
               else backtrackRun run ++ c :: replaceSeparators [] r
           end
  end.

(** [.replace(/\d+(\w|$)/g, m => m.toUpperCase())]: the character of [\w]
    that ends a run of digits is capitalized. *)
Fixpoint replaceAfterDigits (afterDigit : bool) (l : chars) : chars :=
  match l with
  | [] => []
  | c :: r =>
      if isDigit c then c :: replaceAfterDigits true r
      else if afterDigit && isWord c then toUpper c :: replaceAfterDigits false r
      else c :: replaceAfterDigits false r
  end.

Definition camelCaseChars (input : chars) : chars :=
  let input := trim input in
  match input with
  | [] => []
  | [c] => [toLower c]
  | _ =>
      let hasUpperCase := existsb isUpper input in
      let input := if hasUpperCase then preserveCamelCase input else input in
      replaceAfterDigits false
        (replaceSeparators []
           (map toLower (dropWhile isSeparator input)))
  end.

Definition camelCase (input : string) : string :=
  toString (camelCaseChars (ofString input)).

End CamelCase.
Import CamelCase.

(** [.replace(/^[^a-zA-Z]+/g, "")] *)
Definition stripLeadingNonLetters (l : chars) : chars :=
  dropWhile (fun c => negb (isLetter c)) l.

(** [.replace(/[^\w-]+/g, "-")]; [inRun] tells that the previous character
    was already replaced. *)
Fixpoint replaceNonWord (inRun : bool) (l : chars) : chars :=
  match l with
  | [] => []
  | c :: r =>
      if isWordOrDash c then c :: replaceNonWord false r
      else if inRun then replaceNonWord true r
      else "-"%char :: replaceNonWord true r
  end.

(** The cleaning shared by the two naming functions:
    [.replace(/^[^a-zA-Z]+/g, "").replace(/[^\w-]+/g, "-").trim()]. *)
Definition cleanChars (l : chars) : chars :=
  trim (replaceNonWord false (stripLeadingNonLetters l)).

Definition clean (value : string) : string := toString (cleanChars (ofString value)).

Definition javascriptReservedWords : list string :=
  [ "break"; "case"; "catch"; "class"; "const"; "continue"; "debugger";
    "default"; "delete"; "do"; "else"; "export"; "extends"; "false";
    "finally"; "for"; "function"; "if"; "import"; "in"; "instanceof"; "new";
    "null"; "return"; "super"; "switch"; "this"; "throw"; "true"; "try";
    "typeof"; "var"; "void"; "while"; "with"; "yield"; "let"; "await"; "enum";
    "implements"; "interface"; "package"; "private"; "protected"; "public";
    "static"; "abstract"; "boolean"; "byte"; "char"; "double"; "final";
    "float"; "goto"; "int"; "long"; "native"; "short"; "synchronized";
    "throws"; "transient"; "volatile"; "arguments"; "async"; "eval"; "get";
    "set"; "null"; "true"; "false"; "any"; "boolean"; "constructor";
    "declare"; "module"; "require"; "number"; "string"; "of" ].

Definition isReservedWord (value : string) : bool :=
  includes javascriptReservedWords value.

(** The alternatives of the regular expression [reservedWords]. *)
Definition reservedWords : list string :=
  [ "arguments"; "break"; "case"; "catch"; "class"; "const"; "continue";
    "debugger"; "default"; "delete"; "do"; "else"; "enum"; "eval"; "export";
    "extends"; "false"; "finally"; "for"; "function"; "if"; "implements";
    "import"; "in"; "instanceof"; "interface"; "let"; "new"; "null";
    "package"; "private"; "protected"; "public"; "return"; "static"; "super";
    "switch"; "this"; "throw"; "true"; "try"; "typeof"; "var"; "void";
    "while"; "with"; "yield" ].

(** [.replace(reservedWords, "_$1")]: the expression is anchored at both
    ends, so it matches the whole string or nothing. *)
Definition replaceReservedWords (s : string) : string :=
  if includes reservedWords s then "_" ++ s else s.

Definition getOperationParameterName (value : string) : string :=
  replaceReservedWords (camelCase (clean value)).

(** [.replace(/[^/]*?{api-version}.*?\//g, "")].  [matchApiVersion l] tries
    the expression at the head of [l] and gives the number of characters
    after the head that the match covers. *)
Fixpoint skipToSlash (l : chars) : option nat :=
  match l with
  | [] => None
  | c :: r =>
      if Ascii.eqb c "/" then Some 0
      else if isLineTerminator c then None
      else option_map S (skipToSlash r)
  end.

Definition apiVersionToken : chars := ofString "{api-version}".

Fixpoint matchApiVersion (l : chars) : option nat :=
  let here :=
    match startsWith apiVersionToken l with
    | Some t => option_map (fun n => List.length apiVersionToken + n) (skipToSlash t)
    | None => None
    end in
  match here with
  | Some n => Some n
  | None =>
      match l with
      | [] => None
      | c :: r => if Ascii.eqb c "/" then None else option_map S (matchApiVersion r)
      end
  end.

(** [skip] characters of a match are still to be removed. *)
Fixpoint removeApiVersion (skip : nat) (l : chars) : chars :=
  match l with
  | [] => []
  | c :: r =>
      match skip with
      | S k => removeApiVersion k r
      | O =>
          match matchApiVersion l with
          | Some n => removeApiVersion n r
          | None => c :: removeApiVersion 0 r
          end
      end
  end.

(** [.replace(/{(.*?)}/g, "")] *)
Fixpoint skipToBrace (l : chars) : option nat :=
  match l with
  | [] => None
  | c :: r =>
      if Ascii.eqb c "}" then Some 0
      else if isLineTerminator c then None
      else option_map S (skipToBrace r)
  end.

Fixpoint removePlaceholders (skip : nat) (l : chars) : chars :=
  match l with
  | [] => []
  | c :: r =>
      match skip with
      | S k => removePlaceholders k r
      | O =>
          if Ascii.eqb c "{" then
            match skipToBrace r with
            | Some n => removePlaceholders (S n) r
            | None => c :: removePlaceholders 0 r
            end
          else c :: removePlaceholders 0 r
      end
  end.

(** [.replace(/\//g, "-")] *)
Definition slashesToDashes (l : chars) : chars :=
  map (fun c => if Ascii.eqb c "/" then "-"%char else c) l.

Definition urlWithoutPlaceholders (url : string) : string :=
  toString (slashesToDashes (removePlaceholders 0 (removeApiVersion 0 (ofString url)))).

Definition getOperationName (url method : string) (operationId : option string) : string :=
  if truthy operationId then
    let operationId := match operationId with Some s => s | None => "" end in
    let operationIdSplit := strSplit "/" operationId in
    let name :=
      if 1 <? List.length operationIdSplit
      then last operationIdSplit operationId
      else operationId in
    let result := camelCase (clean name) in
    if isReservedWord result then
      if 1 <? List.length operationIdSplit then
        let suffix := hd "" operationIdSplit in
        camelCase (result ++ "-" ++ suffix)
      else camelCase (method ++ "-" ++ result)
    else result
  else camelCase (method ++ "-" ++ urlWithoutPlaceholders url).

Definition getOperationId (url method : string) (operationId : option string) : string :=
  if truthy operationId
  then match operationId with Some s => s | None => "" end
  else method ++ ":" ++ url.

(** ** Data model *)

(** A JavaScript object used as a map: its own properties in enumeration
    order. *)
Definition JsObject (V : Type) : Type := list (string * V).

Definition keys {V} (o : JsObject V) : list string := map fst o.

(** [o[k]] *)
Fixpoint lookup {V} (k : string) (o : JsObject V) : option V :=
  match o with
  | [] => None
  | (k', v) :: r => if String.eqb k k' then Some v else lookup k r
  end.

(** [Array.prototype.sort] with a comparison function.  The sort of
    ECMAScript is stable; with a comparison function that is a consistent
    ordering, as the two of this file are, its result is the one of any
    stable sort, written here as an insertion from the right. *)
Section Sort.
Variable A : Type.
Variable compare : A -> A -> Z.

Fixpoint insert (x : A) (l : list A) : list A :=
  match l with
  | [] => [x]
  | y :: r => if (0 <? compare x y)%Z then y :: insert x r else x :: l
  end.

Definition sort (l : list A) : list A := fold_right insert [] l.
End Sort.

(** [Array.prototype.findIndex], with -1 when nothing is found. *)
Fixpoint findIndex {A} (p : A -> bool) (l : list A) : Z :=
  match l with
  | [] => (-1)%Z
  | x :: r =>
      if p x then 0%Z
      else let i := findIndex p r in if (i <? 0)%Z then (-1)%Z else (i + 1)%Z
  end.

(** [arr.filter((x, index, arr) => p(x, index, arr))], for the part of the
    array that starts at [index]. *)
Fixpoint filterFrom {A} (p : A -> Z -> list A -> bool) (arr : list A)
    (index : Z) (l : list A) : list A :=
  match l with
  | [] => []
  | x :: r =>
      if p x index arr then x :: filterFrom p arr (index + 1) r
      else filterFrom p arr (index + 1) r
  end.

Definition filterIndexed {A} (p : A -> Z -> list A -> bool) (arr : list A) : list A :=
  filterFrom p arr 0 arr.

Set Warnings "-register-all".

Section Services.

(** The parts of a document this file only hands on to its collaborators:
    the reusable components, the contents of a schema fragment other than its
    [$ref], header objects, enum literals and the numbers of the
    constraints. *)
Variables Components SchemaBody Header Enum Num : Type.

(** *** The input document (the declarations of [openapi-types] that the
    code reads) *)

Record SchemaObject := {
  s_ref : option string;            (* $ref *)
  s_body : SchemaBody
}.

(** The [schema] of a media type as [isDefined] looks at it. *)
Inductive SchemaSlot :=
| SchemaUndefined
| SchemaNull
| SchemaEmptyString
| SchemaValue (s : SchemaObject).

Record MediaTypeObject := { mt_schema : SchemaSlot }.

Definition ContentMap := JsObject (option MediaTypeObject).

Record ParameterObject := {
  par_ref : option string;          (* $ref *)
  par_name : string;
  par_in : string;
  par_description : option string;
  par_deprecated : option bool;
  par_required : option bool;
  par_schema : option SchemaObject
}.

Record RequestBodyObject := {
  rb_description : option string;
  rb_required : option bool;
  rb_content : option ContentMap
}.

Record ResponseObject := {
  resp_description : option string;
  resp_content : option ContentMap;
  resp_headers : option (JsObject Header)
}.

Record OperationObject := {
  oo_operationId : option string;
  oo_summary : option string;
  oo_description : option string;
  oo_deprecated : option bool;
  oo_tags : option (list string);
  oo_parameters : option (list ParameterObject);
  oo_requestBody : option RequestBodyObject;
  oo_responses : option (JsObject ResponseObject)
}.

Record PathItemObject := {
  pi_parameters : option (list ParameterObject);
  pi_get : option OperationObject;
  pi_post : option OperationObject;
  pi_put : option OperationObject;
  pi_delete : option OperationObject;
  pi_patch : option OperationObject;
  pi_options : option OperationObject;
  pi_head : option OperationObject
}.

Record TagObject := {
  tag_name : string;
  tag_description : option string
}.

Record Document := {
  doc_tags : option (list TagObject);
  doc_paths : option (JsObject (option PathItemObject));
  doc_components : Components
}.

(** *** The extracted model *)

(** Modelled from the spec: the declarations of [../../@types] are not part
    of the sources.  Section 3 of the specification lists the attributes of
    each entity; the records below carry them, with the fields the code
    assigns.  The numeric, string and array constraints mirrored from a
    resolved model are grouped in [Constraints]. *)
Record Constraints := {
  format : option string;
  maximum : option Num;
  exclusiveMaximum : option bool;
  minimum : option Num;
  exclusiveMinimum : option bool;
  multipleOf : option Num;
  maxLength : option Num;
  minLength : option Num;
  maxItems : option Num;
  minItems : option Num;
  uniqueItems : option bool;
  maxProperties : option Num;
  minProperties : option Num;
  pattern : option string
}.

Definition noConstraints : Constraints :=
  {| format := None; maximum := None; exclusiveMaximum := None;
     minimum := None; exclusiveMinimum := None; multipleOf := None;
     maxLength := None; minLength := None; maxItems := None;
     minItems := None; uniqueItems := None; maxProperties := None;
     minProperties := None; pattern := None |}.

Inductive Model := mkModel {
  name : string;
  export : string;
  type : string;
  base : string;
  template : option string;
  link : option Model;
  description : option string;
  deprecated : option bool;
  default : option string;
  isDefinition : bool;
  isReadOnly : bool;
  isRequired : bool;
  isNullable : bool;
  constraints : Constraints;
  imports : list string;
  enum : list Enum;
  enums : list Model;
  properties : list Model
}.

Record OperationParameter := {
  p_in : string;
  prop : string;
  mediaType : option string;
  p_model :> Model
}.

Record OperationResponse := {
  in_ : string;
  code : Z;
  r_model :> Model
}.

Record OperationError := {
  e_code : Z;
  e_description : string
}.

Record OperationParameters := {
  ps_imports : list string;
  ps_parameters : list OperationParameter;
  ps_parametersPath : list OperationParameter;
  ps_parametersQuery : list OperationParameter;
  ps_parametersForm : list OperationParameter;
  ps_parametersCookie : list OperationParameter;
  ps_parametersHeader : list OperationParameter;
  ps_parametersBody : option OperationParameter
}.

Record Operation := {
  op_id : string;
  op_name : string;
  op_summary : option string;
  op_description : option string;
  op_deprecated : bool;
  op_method : string;
  op_path : string;
  op_parameters : list OperationParameter;
  op_parametersPath : list OperationParameter;
  op_parametersQuery : list OperationParameter;
  op_parametersForm : list OperationParameter;
  op_parametersHeader : list OperationParameter;
  op_parametersCookie : list OperationParameter;
  op_parametersBody : option OperationParameter;
  op_imports : list string;
  op_errors : list OperationError;
  op_results : list OperationResponse;
  op_responseHeader : option string
}.

Record Service := {
  svc_name : string;
  svc_description : option string;
  svc_operations : list Operation;
  svc_imports : list string
}.

Record Content := {
  c_mediaType : string;
  c_schema : SchemaObject
}.

(** *** Collaborators

    The reference lookup and the model resolver live in [../common/v3_1] and
    [../models/v3_1], outside this file; the code below only calls them.
    [getRef] is one generic function in the source, used at four types. *)
Variable getRefParameter : Document -> ParameterObject -> ParameterObject.
Variable getRefRequestBody : Document -> RequestBodyObject -> RequestBodyObject.
Variable getRefResponse : Document -> ResponseObject -> ResponseObject.
Variable getRefSchema : Document -> SchemaObject -> SchemaObject.
Variable getType : string -> Model.
Variable getModel : Document -> string -> SchemaObject -> Model.
Variable getModelDefault : SchemaObject -> option string.
Variable getPattern : option string -> option string.

(** ** Content negotiator *)

Definition BASIC_MEDIA_TYPES : list string :=
  [ "application/json-patch+json"; "application/json";
    "application/x-www-form-urlencoded"; "text/json"; "text/plain";
    "multipart/form-data"; "multipart/mixed"; "multipart/related";
    "multipart/batch" ].

Definition isDefined (value : SchemaSlot) : bool :=
  match value with
  | SchemaUndefined | SchemaNull | SchemaEmptyString => false
  | SchemaValue _ => true
  end.

(** [content[mediaType]?.schema] *)
Definition schemaOf (content : ContentMap) (mediaType : string) : SchemaSlot :=
  match lookup mediaType content with
  | Some (Some m) => mt_schema m
  | _ => SchemaUndefined
  end.

(** [mediaType.split(";")[0].trim()] *)
Definition cleanMediaType (mediaType : string) : string :=
  strTrim (hd "" (strSplit ";" mediaType)).

Definition isBasicMediaType (mediaType : string) : bool :=
  includes BASIC_MEDIA_TYPES (cleanMediaType mediaType).

(** [{ mediaType, schema: content[mediaType].schema }] *)
Definition contentAt (content : ContentMap) (mediaType : string) : option Content :=
  match schemaOf content mediaType with
  | SchemaValue s => Some {| c_mediaType := mediaType; c_schema := s |}
  | _ => None
  end.

Definition getContent (content : ContentMap) : option Content :=
  let basicMediaTypeWithSchema :=
    find (fun mediaType => isDefined (schemaOf content mediaType))
         (filter isBasicMediaType (keys content)) in
  if truthy basicMediaTypeWithSchema then
    match basicMediaTypeWithSchema with
    | Some mediaType => contentAt content mediaType
    | None => None
    end
  else
    let firstMediaTypeWithSchema :=
      find (fun mediaType => isDefined (schemaOf content mediaType)) (keys content) in
    if truthy firstMediaTypeWithSchema then
      match firstMediaTypeWithSchema with
      | Some mediaType => contentAt content mediaType
      | None => None
      end
    else None.

(** ** Response classifier *)

(** [parseInt(value)] without a radix: leading white space, an optional
    sign, an optional [0x] prefix, then the longest run of digits; [None] is
    NaN.  The value is exact as long as it is below 2^53. *)
Definition digitValue (radix : Z) (c : ascii) : option Z :=
  let v :=
    if isDigit c then Some (Z.of_nat (codeOf c) - 48)%Z
    else if isLower c then Some (Z.of_nat (codeOf c) - 87)%Z
    else if isUpper c then Some (Z.of_nat (codeOf c) - 55)%Z
    else None in
  match v with
  | Some d => if (d <? radix)%Z then Some d else None
  | None => None
  end.

(** The value of the longest run of digits at the head of [l], read after
    the digits of value [acc]; [None] when [l] starts with no digit. *)
Fixpoint readDigits (radix : Z) (acc : option Z) (l : chars) : option Z :=
  match l with
  | [] => acc
  | c :: r =>
      match digitValue radix c with
      | Some d =>
          readDigits radix
            (Some (match acc with Some a => a * radix + d | None => d end)%Z) r
      | None => acc
      end
  end.

(** The sign of the number and the input after it. *)
Definition stripSign (input : chars) : Z * chars :=
  match input with
  | c :: r =>
      if Ascii.eqb c "-" then ((-1)%Z, r)
      else if Ascii.eqb c "+" then (1%Z, r)
      else (1%Z, input)
  | [] => (1%Z, input)
  end.

(** The radix of the number and the input after the prefix [0x] or [0X]. *)
Definition stripPrefix (input : chars) : Z * chars :=
  match input with
  | c0 :: c1 :: r =>
      if Ascii.eqb c0 "0" && (Ascii.eqb c1 "x" || Ascii.eqb c1 "X")
      then (16%Z, r)
      else (10%Z, input)
  | _ => (10%Z, input)
  end.

Definition parseInt (value : string) : option Z :=
  let input := trimStart (ofString value) in
  let '(sign, input) := stripSign input in
  let '(radix, input) := stripPrefix input in
  option_map (fun mathInt => (sign * mathInt)%Z) (readDigits radix None input).

Definition getOperationResponseCode (value : string) : option Z :=
  if String.eqb value "default" then Some 200%Z
  else if existsb isDigit (ofString value) then
    match parseInt value with
    | Some code => Some (Z.abs code)
    | None => None
    end
  else None.

Definition emptyModel : Model :=
  {| name := ""; export := "generic"; type := "any"; base := "any";
     template := None; link := None; description := None;
     deprecated := None; default := None;
     isDefinition := false; isReadOnly := false; isRequired := false;
     isNullable := false; constraints := noConstraints;
     imports := []; enum := []; enums := []; properties := [] |}.

(** The assignments of the [$ref] branches: [export], [type], [base],
    [template] and the imports of the referenced type. *)
Definition assignReference (target model : Model) : Model :=
  {| name := name target; export := "reference"; type := type model;
     base := base model; template := template model; link := link target;
     description := description target; deprecated := deprecated target;
     default := default target;
     isDefinition := isDefinition target; isReadOnly := isReadOnly target;
     isRequired := isRequired target; isNullable := isNullable target;
     constraints := constraints target;
     imports := imports target ++ imports model;
     enum := enum target; enums := enums target;
     properties := properties target |}.

(** The constraint fields copied one by one from a resolved model, the
    pattern through [getPattern]. *)
Definition copyConstraints (model : Model) : Constraints :=
  let k := constraints model in
  {| format := format k; maximum := maximum k;
     exclusiveMaximum := exclusiveMaximum k; minimum := minimum k;
     exclusiveMinimum := exclusiveMinimum k; multipleOf := multipleOf k;
     maxLength := maxLength k; minLength := minLength k;
     maxItems := maxItems k; minItems := minItems k;
     uniqueItems := uniqueItems k; maxProperties := maxProperties k;
     minProperties := minProperties k;
     pattern := getPattern (pattern k) |}.

Definition getOperationResponse (openApi : Document) (response : ResponseObject)
    (responseCode : Z) : OperationResponse :=
  let operationResponse : Model :=
    {| name := ""; export := "generic"; type := "any"; base := "any";
       template := None; link := None;
       description := orNull (resp_description response);
       deprecated := None; default := None;
       isDefinition := false; isReadOnly := false; isRequired := false;
       isNullable := false; constraints := noConstraints;
       imports := []; enum := []; enums := []; properties := [] |} in
  let fromHeaders :=
    match resp_headers response with
    | Some ((name, _) :: _) =>
        {| in_ := "header"; code := responseCode;
           r_model :=
             {| name := name; export := export operationResponse;
                type := "string"; base := "string";
                template := template operationResponse;
                link := link operationResponse;
                description := description operationResponse;
                deprecated := deprecated operationResponse;
                default := default operationResponse;
                isDefinition := isDefinition operationResponse;
                isReadOnly := isReadOnly operationResponse;
                isRequired := isRequired operationResponse;
                isNullable := isNullable operationResponse;
                constraints := constraints operationResponse;
                imports := imports operationResponse;
                enum := enum operationResponse;
                enums := enums operationResponse;
                properties := properties operationResponse |} |}
    | _ => {| in_ := "response"; code := responseCode; r_model := operationResponse |}
    end in
  match resp_content response with
  | Some content =>
      match getContent content with
      | Some content =>
          let schema :=
            match s_ref (c_schema content) with
            | Some ref =>
                if strStartsWith "#/components/responses/" ref
                then getRefSchema openApi (c_schema content)
                else c_schema content
            | None => c_schema content
            end in
          if truthy (s_ref schema) then
            let model := getType (match s_ref schema with Some r => r | None => "" end) in
            {| in_ := "response"; code := responseCode;
               r_model := assignReference operationResponse model |}
          else
            let model := getModel openApi "" schema in
            {| in_ := "response"; code := responseCode;
               r_model :=
                 {| name := name operationResponse; export := export model;
                    type := type model; base := base model;
                    template := template model; link := link model;
                    description := description operationResponse;
                    deprecated := deprecated operationResponse;
                    default := default operationResponse;
                    isDefinition := isDefinition operationResponse;
                    isReadOnly := isReadOnly model;
                    isRequired := isRequired model;
                    isNullable := isNullable model;
                    constraints := copyConstraints model;
                    imports := imports operationResponse ++ imports model;
                    enum := enum operationResponse ++ enum model;
                    enums := enums operationResponse ++ enums model;
                    properties := properties operationResponse ++ properties model |} |}
      | None => fromHeaders
      end
  | None => fromHeaders
  end.

Definition compareCode (a b : OperationResponse) : Z :=
  if (code a <? code b)%Z then (-1)%Z
  else if (code b <? code a)%Z then 1%Z else 0%Z.

Definition getOperationResponses (openApi : Document)
    (responses : JsObject ResponseObject) : list OperationResponse :=
  let operationResponses :=
    flat_map
      (fun entry : string * ResponseObject =>
         let '(code, responseOrReference) := entry in
         let response := getRefResponse openApi responseOrReference in
         match getOperationResponseCode code with
         | Some responseCode =>
             if (responseCode =? 0)%Z then []
             else [getOperationResponse openApi response responseCode]
         | None => []
         end)
      responses in
  sort compareCode operationResponses.

Definition eqOptString (a b : option string) : bool :=
  match a, b with
  | Some x, Some y => String.eqb x y
  | None, None => true
  | _, _ => false
  end.

Fixpoint areEqual (a b : Model) : bool :=
  let equal :=
    String.eqb (type a) (type b) && String.eqb (base a) (base b)
    && eqOptString (template a) (template b) in
  match a with
  | mkModel _ _ _ _ _ (Some alink) _ _ _ _ _ _ _ _ _ _ _ _ =>
      match link b with
      | Some blink => if equal then areEqual alink blink else equal
      | None => equal
      end
  | _ => equal
  end.

Definition voidResult : OperationResponse :=
  {| in_ := "response"; code := 200%Z;
     r_model :=
       {| name := ""; export := "generic"; type := "void"; base := "void";
          template := None; link := None; description := Some "";
          deprecated := None; default := None;
          isDefinition := false; isReadOnly := false; isRequired := false;
          isNullable := false; constraints := noConstraints;
          imports := []; enum := []; enums := []; properties := [] |} |}.

(** [code && code !== 204 && code >= 200 && code < 300] *)
Definition isSuccess (operationResponse : OperationResponse) : bool :=
  let code := code operationResponse in
  negb (code =? 0)%Z && negb (code =? 204)%Z && (200 <=? code)%Z && (code <? 300)%Z.

Definition getOperationResults (operationResponses : list OperationResponse)
    : list OperationResponse :=
  let operationResults := filter isSuccess operationResponses in
  let operationResults :=
    match operationResults with
    | [] => [voidResult]
    | _ :: _ => operationResults
    end in
  filterIndexed
    (fun (operationResult : OperationResponse) index arr =>
       (findIndex (fun item : OperationResponse => areEqual item operationResult) arr
        =? index)%Z)
    operationResults.

Definition getOperationErrors (operationResponses : list OperationResponse)
    : list OperationError :=
  map
    (fun response : OperationResponse =>
       {| e_code := code response;
          e_description :=
            match description response with
            | Some d => if String.eqb d "" then "" else d
            | None => ""
            end |})
    (filter
       (fun operationResponse : OperationResponse =>
          (300 <=? code operationResponse)%Z && truthy (description operationResponse))
       operationResponses).

Definition getOperationResponseHeader (operationResponses : list OperationResponse)
    : option string :=
  match find (fun r : OperationResponse => String.eqb (in_ r) "header") operationResponses with
  | Some header => Some (name header)
  | None => None
  end.

(** ** Parameter classifier *)

Definition getOperationParameter (openApi : Document) (parameter : ParameterObject)
    : OperationParameter :=
  let operationParameter : Model :=
    {| name := getOperationParameterName (par_name parameter);
       export := "interface"; type := "any"; base := "any";
       template := None; link := None;
       description := orNull (par_description parameter);
       deprecated := Some (isTrue (par_deprecated parameter));
       default := None;
       isDefinition := false; isReadOnly := false;
       isRequired := isTrue (par_required parameter);
       isNullable := false; constraints := noConstraints;
       imports := []; enum := []; enums := []; properties := [] |} in
  let finish (m : Model) : OperationParameter :=
    {| p_in := par_in parameter; prop := par_name parameter;
       mediaType := None; p_model := m |} in
  if truthy (par_ref parameter) then
    let definitionRef :=
      getType (match par_ref parameter with Some r => r | None => "" end) in
    finish (assignReference operationParameter definitionRef)
  else
    match par_schema parameter with
    | Some schema =>
        let schema :=
          match s_ref schema with
          | Some ref =>
              if strStartsWith "#/components/parameters/" ref
              then getRefSchema openApi schema
              else schema
          | None => schema
          end in
        match s_ref schema with
        | Some ref =>
            let model := getType ref in
            let m := assignReference operationParameter model in
            finish
              {| name := name m; export := export m; type := type m;
                 base := base m; template := template m; link := link m;
                 description := description m; deprecated := deprecated m;
                 default := getModelDefault schema;
                 isDefinition := isDefinition m; isReadOnly := isReadOnly m;
                 isRequired := isRequired m; isNullable := isNullable m;
                 constraints := constraints m; imports := imports m;
                 enum := enum m; enums := enums m;
                 properties := properties m |}
        | None =>
            let model := getModel openApi "" schema in
            finish
              {| name := name operationParameter; export := export model;
                 type := type model; base := base model;
                 template := template model; link := link model;
                 description := description operationParameter;
                 deprecated := deprecated operationParameter;
                 default := default model;
                 isDefinition := isDefinition operationParameter;
                 isReadOnly := isReadOnly model;
                 isRequired := isRequired operationParameter || isRequired model;
                 isNullable := isNullable operationParameter || isNullable model;
                 constraints := copyConstraints model;
                 imports := imports operationParameter ++ imports model;
                 enum := enum operationParameter ++ enum model;
                 enums := enums operationParameter ++ enums model;
                 properties := properties operationParameter ++ properties model |}
        end
    | None => finish operationParameter
    end.

Definition noParameters : OperationParameters :=
  {| ps_imports := []; ps_parameters := []; ps_parametersPath := [];
     ps_parametersQuery := []; ps_parametersForm := [];
     ps_parametersCookie := []; ps_parametersHeader := [];
     ps_parametersBody := None |}.

(** The body of the [forEach] of [getOperationParameters], once the
    parameter is built. *)
Definition classifyParameter (operationParameters : OperationParameters)
    (parameter : OperationParameter) : OperationParameters :=
  let o := operationParameters in
  let pushed (path query form cookie header : list OperationParameter) :=
    {| ps_imports := ps_imports o ++ imports parameter;
       ps_parameters := ps_parameters o ++ [parameter];
       ps_parametersPath := ps_parametersPath o ++ path;
       ps_parametersQuery := ps_parametersQuery o ++ query;
       ps_parametersForm := ps_parametersForm o ++ form;
       ps_parametersCookie := ps_parametersCookie o ++ cookie;
       ps_parametersHeader := ps_parametersHeader o ++ header;
       ps_parametersBody := ps_parametersBody o |} in
  if negb (String.eqb (prop parameter) "api-version") then
    if String.eqb (p_in parameter) "path" then pushed [parameter] [] [] [] []
    else if String.eqb (p_in parameter) "query" then pushed [] [parameter] [] [] []
    else if String.eqb (p_in parameter) "formData" then pushed [] [] [parameter] [] []
    else if String.eqb (p_in parameter) "cookie" then pushed [] [] [] [parameter] []
    else if String.eqb (p_in parameter) "header" then pushed [] [] [] [] [parameter]
    else o
  else o.

Definition getOperationParameters (doc : Document) (parameters : list ParameterObject)
    : OperationParameters :=
  fold_left
    (fun operationParameters parameterOrReference =>
       let parameterDef := getRefParameter doc parameterOrReference in
       let parameter := getOperationParameter doc parameterDef in
       classifyParameter operationParameters parameter)
    parameters noParameters.

(** ** Operation builder *)

Definition getOperationRequestBody (openApi : Document) (body : RequestBodyObject)
    : OperationParameter :=
  let requestBody : Model :=
    {| name := "body"; export := "interface"; type := "any"; base := "any";
       template := None; link := None;
       description := orNull (rb_description body);
       deprecated := None; default := None;
       isDefinition := false; isReadOnly := false;
       isRequired := isTrue (rb_required body);
       isNullable := false; constraints := noConstraints;
       imports := []; enum := []; enums := []; properties := [] |} in
  let plain : OperationParameter :=
    {| p_in := "body"; prop := "body"; mediaType := None; p_model := requestBody |} in
  match rb_content body with
  | Some content =>
      match getContent content with
      | Some content =>
          let form :=
            String.eqb (c_mediaType content) "application/x-www-form-urlencoded"
            || String.eqb (c_mediaType content) "multipart/form-data" in
          let location := if form then "formData" else "body" in
          let finish (m : Model) : OperationParameter :=
            {| p_in := location; prop := location;
               mediaType := Some (c_mediaType content); p_model := m |} in
          let schema := c_schema content in
          if truthy (s_ref schema) then
            let model := getType (match s_ref schema with Some r => r | None => "" end) in
            let m := assignReference requestBody model in
            finish
              {| name := location; export := export m; type := type m;
                 base := base m; template := template m; link := link m;
                 description := description m; deprecated := deprecated m;
                 default := default m;
                 isDefinition := isDefinition m; isReadOnly := isReadOnly m;
                 isRequired := isRequired m; isNullable := isNullable m;
                 constraints := constraints m; imports := imports m;
                 enum := enum m; enums := enums m;
                 properties := properties m |}
          else
            let model := getModel openApi "" schema in
            finish
              {| name := location; export := export model;
                 type := type model; base := base model;
                 template := template model; link := link model;
                 description := description requestBody;
                 deprecated := deprecated requestBody;
                 default := default requestBody;
                 isDefinition := isDefinition requestBody;
                 isReadOnly := isReadOnly model;
                 isRequired := isRequired requestBody || isRequired model;
                 isNullable := isNullable requestBody || isNullable model;
                 constraints := copyConstraints model;
                 imports := imports requestBody ++ imports model;
                 enum := enum requestBody ++ enum model;
                 enums := enums requestBody ++ enums model;
                 properties := properties requestBody ++ properties model |}
      | None => plain
      end
  | None => plain
  end.

(** [a.isRequired && a.default === undefined] *)
Definition needsValue (a : OperationParameter) : bool :=
  isRequired a && match default a with None => true | Some _ => false end.

Definition sortByRequired (a b : OperationParameter) : Z :=
  let aNeedsValue := needsValue a in
  let bNeedsValue := needsValue b in
  if aNeedsValue && negb bNeedsValue then (-1)%Z
  else if bNeedsValue && negb aNeedsValue then 1%Z
  else 0%Z.

Definition getOperation (openApi : Document) (url method : string)
    (op : OperationObject) (pathParams : OperationParameters) : Operation :=
  let operationName := getOperationName url method (oo_operationId op) in
  (* the operation's own parameters *)
  let own :=
    match oo_parameters op with
    | Some parameters => Some (getOperationParameters openApi parameters)
    | None => None
    end in
  let pushed (field : OperationParameters -> list OperationParameter) :=
    field pathParams ++ match own with Some parameters => field parameters | None => [] end in
  (* the request body *)
  let requestBody :=
    match oo_requestBody op with
    | Some body =>
        Some (getOperationRequestBody openApi (getRefRequestBody openApi body))
    | None => None
    end in
  (* the responses *)
  let operationResponses :=
    match oo_responses op with
    | Some responses => Some (getOperationResponses openApi responses)
    | None => None
    end in
  let operationResults :=
    match operationResponses with
    | Some responses => getOperationResults responses
    | None => []
    end in
  {| op_id := getOperationId url method (oo_operationId op);
     op_name := operationName;
     op_summary := orNull (oo_summary op);
     op_description := orNull (oo_description op);
     op_deprecated := isTrue (oo_deprecated op);
     op_method := strUpper method;
     op_path := url;
     op_parameters :=
       sort sortByRequired
         (pushed (@ps_parameters)
          ++ match requestBody with Some body => [body] | None => [] end);
     op_parametersPath := pushed (@ps_parametersPath);
     op_parametersQuery := pushed (@ps_parametersQuery);
     op_parametersForm := pushed (@ps_parametersForm);
     op_parametersHeader := pushed (@ps_parametersHeader);
     op_parametersCookie := pushed (@ps_parametersCookie);
     op_parametersBody :=
       match requestBody with
       | Some body => Some body
       | None =>
           match own with
           | Some parameters => ps_parametersBody parameters
           | None => ps_parametersBody pathParams
           end
       end;
     op_imports :=
       match own with Some parameters => ps_imports parameters | None => [] end
       ++ match requestBody with Some body => imports body | None => [] end
       ++ flat_map (fun r : OperationResponse => imports r) operationResults;
     op_errors :=
       match operationResponses with
       | Some responses => getOperationErrors responses
       | None => []
       end;
     op_results := operationResults;
     op_responseHeader :=
       match operationResponses with
       | Some _ => getOperationResponseHeader operationResults
       | None => None
       end |}.

(** ** Service aggregator *)

(** The object [operations] built for one path item, in the order of its
    literal. *)
Definition methodsOf (pathObject : PathItemObject) : JsObject (option OperationObject) :=
  [ ("get", pi_get pathObject); ("post", pi_post pathObject);
    ("put", pi_put pathObject); ("delete", pi_delete pathObject);
    ("patch", pi_patch pathObject); ("options", pi_options pathObject);
    ("head", pi_head pathObject) ].

(** [!op || !op.tags || !op.tags.includes(service.name)], negated. *)
Definition isTagged (serviceName : string) (op : option OperationObject) : bool :=
  match op with
  | Some op =>
      match oo_tags op with
      | Some tags => includes tags serviceName
      | None => false
      end
  | None => false
  end.

(** The operations one path entry contributes to a service. *)
Definition pathOperations (doc : Document) (serviceName : string)
    (entry : string * option PathItemObject) : list Operation :=
  let '(path, pathObject) := entry in
  match pathObject with
  | None => []
  | Some pathObject =>
      let pathParams :=
        getOperationParameters doc
          (match pi_parameters pathObject with Some ps => ps | None => [] end) in
      flat_map
        (fun m : string * option OperationObject =>
           let '(method, op) := m in
           if isTagged serviceName op then
             match op with
             | Some op => [getOperation doc path method op pathParams]
             | None => []
             end
           else [])
        (methodsOf pathObject)
  end.

Definition getService (doc : Document) (tag : TagObject) : Service :=
  let operations :=
    flat_map (pathOperations doc (tag_name tag))
      (match doc_paths doc with Some paths => paths | None => [] end) in
  {| svc_name := tag_name tag;
     svc_description := tag_description tag;
     svc_operations := operations;
     svc_imports := flat_map (@op_imports) operations |}.

Definition getServices (doc : Document) : list Service :=
  map (getService doc)
    (match doc_tags doc with Some tags => tags | None => [] end).

(** ** Definitions that follow the words of the specification *)

(** "First occurrence wins, order otherwise preserved": an entry is kept
    when no entry before it, kept or not, is equal to it.  [seen] holds the
    entries before the current one. *)
Fixpoint keepFirstFrom (seen l : list OperationResponse) : list OperationResponse :=
  match l with
  | [] => []
  | x :: r =>
      if existsb (fun item : OperationResponse => areEqual item x) seen
      then keepFirstFrom (seen ++ [x]) r
      else x :: keepFirstFrom (seen ++ [x]) r
  end.

Definition keepFirst (l : list OperationResponse) : list OperationResponse :=
  keepFirstFrom [] l.

(** The candidates of [getOperationResults]: the success responses, or the
    synthetic [void] result when there is none. *)
Definition candidates (operationResponses : list OperationResponse)
    : list OperationResponse :=
  match filter isSuccess operationResponses with
  | [] => [voidResult]
  | x :: r => x :: r
  end.

(** "Keep entries with code in [200, 300) excluding exactly 204". *)
Definition qualifies (r : OperationResponse) : Prop :=
  (200 <= code r < 300)%Z /\ code r <> 204%Z.

(** "Keep entries with code >= 300 and a non-empty description; map to
    {code, description}". *)
Fixpoint errorsOf (l : list OperationResponse) : list OperationError :=
  match l with
  | [] => []
  | r :: l' =>
      match description r with
      | Some d =>
          if (300 <=? code r)%Z && negb (String.eqb d "")
          then {| e_code := code r; e_description := d |} :: errorsOf l'
          else errorsOf l'
      | None => errorsOf l'
      end
  end.

(** "A key matching one or more decimal digits", read as the whole key
    ([allDigits]) or as the test the code makes ([hasDigit]). *)
Definition hasDigit (value : string) : bool := existsb isDigit (ofString value).

Definition allDigits (value : string) : bool :=
  match ofString value with
  | [] => false
  | c :: r => forallb isDigit (c :: r)
  end.

(** The number a run of decimal digits denotes. *)
Fixpoint decimalFrom (acc : Z) (ds : chars) : Z :=
  match ds with
  | [] => acc
  | c :: r => decimalFrom (acc * 10 + (Z.of_nat (codeOf c) - 48))%Z r
  end.

Definition decimalValue (ds : chars) : Z := decimalFrom 0 ds.

(** The claim on the keys of a responses map, for a reading [matches] of
    "matching one or more decimal digits": "default" is 200, a matching key
    is parsed and gives the absolute value, any other key gives nothing. *)
Definition keysAsClaimed (matches : string -> bool) : Prop :=
  getOperationResponseCode "default" = Some 200%Z
  /\ forall key : string,
       key <> "default" ->
       (matches key = true ->
        exists n : Z, parseInt key = Some n
                      /\ getOperationResponseCode key = Some (Z.abs n))
       /\ (matches key = false -> getOperationResponseCode key = None).

(** What follows the digits of a key: no further digit, and no [x] that
    would make [0x] a hexadecimal prefix. *)
Definition endsNumber (ds rest : chars) : bool :=
  match rest with
  | [] => true
  | c :: _ =>
      negb (isDigit c)
      && negb (match ds with
               | [d] => Ascii.eqb d "0" && (Ascii.eqb c "x" || Ascii.eqb c "X")
               | _ => false
               end)
  end.

(** A hexadecimal digit and its value. *)
Definition isHexDigit (c : ascii) : bool :=
  isDigit c
  || ((97 <=? codeOf c) && (codeOf c <=? 102))
  || ((65 <=? codeOf c) && (codeOf c <=? 70)).

Definition hexDigitValue (c : ascii) : Z :=
  if isDigit c then (Z.of_nat (codeOf c) - 48)%Z
  else if 97 <=? codeOf c then (Z.of_nat (codeOf c) - 87)%Z
  else (Z.of_nat (codeOf c) - 55)%Z.

(** The number a run of hexadecimal digits denotes. *)
Fixpoint hexFrom (acc : Z) (hs : chars) : Z :=
  match hs with
  | [] => acc
  | c :: r => hexFrom (acc * 16 + hexDigitValue c)%Z r
  end.

Definition hexValue (hs : chars) : Z := hexFrom 0 hs.

(** What follows the hexadecimal digits of a key: no further hexadecimal
    digit. *)
Definition endsHex (rest : chars) : bool :=
  match rest with
  | [] => true
  | c :: _ => negb (isHexDigit c)
  end.

Definition pathsOf (doc : Document) : JsObject (option PathItemObject) :=
  match doc_paths doc with Some paths => paths | None => [] end.

Definition pathParamsOf (doc : Document) (pathObject : PathItemObject)
    : OperationParameters :=
  getOperationParameters doc
    (match pi_parameters pathObject with Some ps => ps | None => [] end).

(** The operations of a list that stand for one path and one method. *)
Definition operationsAt (path method : string) (operations : list Operation)
    : list Operation :=
  filter
    (fun o => String.eqb (op_path o) path && String.eqb (op_method o) (strUpper method))
    operations.

Definition tagsOf (doc : Document) : list TagObject :=
  match doc_tags doc with Some tags => tags | None => [] end.

(** The schema a media-type entry carries, if any. *)
Definition entrySchema (entry : string * option MediaTypeObject) : option SchemaObject :=
  match snd entry with
  | Some m => match mt_schema m with SchemaValue s => Some s | _ => None end
  | None => None
  end.

Definition carriesSchema (entry : string * option MediaTypeObject) : bool :=
  match entrySchema entry with Some _ => true | None => false end.

Definition isBasicWithSchema (entry : string * option MediaTypeObject) : bool :=
  isBasicMediaType (fst entry) && carriesSchema entry.

Definition notApiVersion (p : OperationParameter) : Prop :=
  prop p <> "api-version" /\ name p <> "api-version".

(** The array [operationResponses] of [getOperationResponses] before it is
    sorted: one descriptor per key with a code, in the order of the keys. *)
Definition collectResponses (openApi : Document)
    (responses : JsObject ResponseObject) : list OperationResponse :=
  flat_map
    (fun entry : string * ResponseObject =>
       let '(code, responseOrReference) := entry in
       let response := getRefResponse openApi responseOrReference in
       match getOperationResponseCode code with
       | Some responseCode =>
           if (responseCode =? 0)%Z then []
           else [getOperationResponse openApi response responseCode]
       | None => []
       end)
    responses.

(** Ascending order of the codes. *)
Definition codeLe (a b : OperationResponse) : Prop := (code a <= code b)%Z.

(** The five locations that have a bucket. *)
Definition locations : list string := ["path"; "query"; "formData"; "cookie"; "header"].

(** A built parameter that goes to the bucket of [location]. *)
Definition hasLocation (location : string) (p : OperationParameter) : bool :=
  negb (String.eqb (prop p) "api-version") && String.eqb (p_in p) location.

(** A built parameter that goes to some bucket. *)
Definition isBucketed (p : OperationParameter) : bool :=
  negb (String.eqb (prop p) "api-version") && includes locations (p_in p).

(** The parameters of a list as [getOperationParameters] builds them, before
    they are put in buckets. *)
Definition builtParameters (doc : Document) (parameters : list ParameterObject)
    : list OperationParameter :=
  map (fun parameterOrReference =>
         getOperationParameter doc (getRefParameter doc parameterOrReference))
      parameters.

(** The content chosen for a response, if any. *)
Definition selectedContent (response : ResponseObject) : option Content :=
  match resp_content response with
  | Some content => getContent content
  | None => None
  end.

(** The content chosen for a request body, if any. *)
Definition selectedBodyContent (body : RequestBodyObject) : option Content :=
  match rb_content body with
  | Some content => getContent content
  | None => None
  end.

(** The seven methods [getService] looks for on a path item. *)
Definition httpMethods : list string :=
  ["get"; "post"; "put"; "delete"; "patch"; "options"; "head"].

(** Ascending order of the codes of errors. *)
Definition errorLe (a b : OperationError) : Prop := (e_code a <= e_code b)%Z.

(** A key of a responses map that gets a descriptor. *)
Definition hasPositiveCode (entry : string * ResponseObject) : bool :=
  match getOperationResponseCode (fst entry) with
  | Some c => negb (c =? 0)%Z
  | None => false
  end.

(** The last segment of a declared identifier, as [getOperationName] takes
    it. *)
Definition lastSegment (operationId : string) : string :=
  let operationIdSplit := strSplit "/" operationId in
  if 1 <? List.length operationIdSplit
  then last operationIdSplit operationId else operationId.

(** * Properties *)

(** ** Lists *)

Lemma findIndex_range A (p : A -> bool) (l : list A) :
  (findIndex p l = -1 \/ 0 <= findIndex p l < Z.of_nat (List.length l))%Z.
Proof.
  induction l as [|x r IH]; simpl; [now left|].
  destruct (p x); [right; lia|].
  destruct IH as [E|IH].
  - rewrite E. now left.
  - destruct (Z.ltb_spec (findIndex p r) 0); [lia|right; lia].
Qed.

Lemma findIndex_none A (p : A -> bool) (l : list A) :
  existsb p l = false -> findIndex p l = (-1)%Z.
Proof.
  induction l as [|x r IH]; simpl; [reflexivity|].
  destruct (p x); simpl; [discriminate|].
  intros E. rewrite (IH E). reflexivity.
Qed.

Lemma findIndex_app A (p : A -> bool) (l1 l2 : list A) :
  findIndex p (l1 ++ l2) =
  if existsb p l1 then findIndex p l1
  else if (findIndex p l2 <? 0)%Z then (-1)%Z
       else (Z.of_nat (List.length l1) + findIndex p l2)%Z.
Proof.
  induction l1 as [|x r IH].
  - simpl. destruct (findIndex_range p l2) as [E|E].
    + rewrite E. reflexivity.
    + destruct (Z.ltb_spec (findIndex p l2) 0); lia.
  - cbn [app findIndex existsb List.length]. destruct (p x); [reflexivity|].
    cbn [orb]. rewrite IH. destruct (existsb p r); [reflexivity|].
    destruct (findIndex_range p l2) as [E|E].
    + rewrite E. reflexivity.
    + destruct (Z.ltb_spec (findIndex p l2) 0); [lia|].
      destruct (Z.ltb_spec (Z.of_nat (List.length r) + findIndex p l2) 0); lia.
Qed.

(** The element at position [length seen] is the first match exactly when
    it matches and nothing before it does. *)
Lemma findIndex_here A (p : A -> bool) (seen : list A) (x : A) (r : list A) :
  p x = true ->
  (findIndex p (seen ++ x :: r) =? Z.of_nat (List.length seen))%Z
  = negb (existsb p seen).
Proof.
  intros Hx. rewrite findIndex_app. destruct (existsb p seen) eqn:E.
  - simpl. destruct (findIndex_range p seen) as [F|F].
    + rewrite F. apply Z.eqb_neq. lia.
    + apply Z.eqb_neq. lia.
  - cbn [findIndex]. rewrite Hx. simpl. apply Z.eqb_eq. lia.
Qed.

Section SortByClass.
Variable A : Type.
Variable first : A -> bool.
Variable compare : A -> A -> Z.
Hypothesis compare_pos :
  forall x y, (0 <? compare x y)%Z = negb (first x) && first y.

Lemma insert_first (x : A) (l : list A) :
  first x = true -> insert compare x l = x :: l.
Proof.
  intros Hx. destruct l as [|y r]; simpl; [reflexivity|].
  now rewrite compare_pos, Hx.
Qed.

Lemma insert_other (x : A) (l1 l2 : list A) :
  first x = false -> Forall (fun y => first y = true) l1 ->
  Forall (fun y => first y = false) l2 ->
  insert compare x (l1 ++ l2) = l1 ++ x :: l2.
Proof.
  intros Hx H1 H2. induction H1 as [|y r Hy _ IH]; simpl.
  - destruct l2 as [|z l2]; simpl; [reflexivity|].
    inversion H2; subst. rewrite compare_pos, Hx.
    replace (first z) with false by auto. reflexivity.
  - rewrite compare_pos, Hx, Hy. simpl. now rewrite IH.
Qed.

(** A sort by a two-class comparison is the stable partition. *)
Lemma sort_partition (l : list A) :
  sort compare l = filter first l ++ filter (fun x => negb (first x)) l.
Proof.
  induction l as [|x l IH]; [reflexivity|].
  change (sort compare (x :: l)) with (insert compare x (sort compare l)).
  rewrite IH. simpl. destruct (first x) eqn:Hx; simpl.
  - now apply insert_first.
  - apply insert_other; [assumption| |].
    + apply Forall_forall. intros y Hy. apply filter_In in Hy. tauto.
    + apply Forall_forall. intros y Hy. apply filter_In in Hy.
      now apply negb_true_iff.
Qed.
End SortByClass.

Lemma sortByRequired_pos (a b : OperationParameter) :
  (0 <? sortByRequired a b)%Z = negb (needsValue a) && needsValue b.
Proof.
  unfold sortByRequired. destruct (needsValue a), (needsValue b); reflexivity.
Qed.

(** ** Structural equality of results *)

Lemma eqOptString_refl (o : option string) : eqOptString o o = true.
Proof. destruct o; simpl; [apply String.eqb_refl|reflexivity]. Qed.

Lemma areEqual_refl : forall m : Model, areEqual m m = true.
Proof.
  fix IH 1. intros m. destruct m as [n e t b tp l d dp df i1 i2 i3 i4 k im en ens ps].
  destruct l as [l|]; cbn.
  - rewrite !String.eqb_refl, eqOptString_refl. cbn. apply IH.
  - now rewrite !String.eqb_refl, eqOptString_refl.
Qed.

(** [areEqual] without a link on one side is the comparison of the three
    top-level fields. *)
Lemma areEqual_no_link (a b : Model) :
  link a = None \/ link b = None ->
  areEqual a b =
  String.eqb (type a) (type b) && String.eqb (base a) (base b)
  && eqOptString (template a) (template b).
Proof.
  destruct a as [n e t b0 tp l d dp df i1 i2 i3 i4 k im en ens ps].
  destruct l as [l|]; cbn; intros [H|H]; try discriminate; try reflexivity.
  now rewrite H.
Qed.

Lemma filterFrom_keepFirstFrom (seen l : list OperationResponse) :
  filterFrom
    (fun (operationResult : OperationResponse) index arr =>
       (findIndex (fun item : OperationResponse => areEqual item operationResult) arr
        =? index)%Z)
    (seen ++ l) (Z.of_nat (List.length seen)) l
  = keepFirstFrom seen l.
Proof.
  revert seen. induction l as [|x r IH]; intros seen; [reflexivity|].
  cbn [filterFrom keepFirstFrom].
  rewrite (findIndex_here (fun item : OperationResponse => areEqual item x) seen x r
             (areEqual_refl x)).
  assert (E : filterFrom
    (fun (operationResult : OperationResponse) index arr =>
       (findIndex (fun item : OperationResponse => areEqual item operationResult) arr
        =? index)%Z)
    (seen ++ x :: r) (Z.of_nat (List.length seen) + 1) r
    = keepFirstFrom (seen ++ [x]) r).
  { specialize (IH (seen ++ [x])). rewrite <- app_assoc in IH. simpl in IH.
    rewrite length_app in IH. simpl in IH.
    replace (Z.of_nat (List.length seen + 1)) with (Z.of_nat (List.length seen) + 1)%Z in IH by lia.
    exact IH. }
  rewrite E. destruct (existsb _ seen); reflexivity.
Qed.

Lemma getOperationResults_keepFirst (operationResponses : list OperationResponse) :
  getOperationResults operationResponses = keepFirst (candidates operationResponses).
Proof.
  unfold getOperationResults, filterIndexed, keepFirst, candidates.
  destruct (filter isSuccess operationResponses) as [|x r];
    apply (filterFrom_keepFirstFrom []).
Qed.

Lemma isSuccess_qualifies (r : OperationResponse) :
  isSuccess r = true <-> qualifies r.
Proof.
  unfold isSuccess, qualifies.
  rewrite !andb_true_iff, !negb_true_iff, !Z.eqb_neq, Z.leb_le, Z.ltb_lt. lia.
Qed.

Lemma keepFirstFrom_In (seen l : list OperationResponse) (x : OperationResponse) :
  In x (keepFirstFrom seen l) -> In x l.
Proof.
  revert seen. induction l as [|y r IH]; intros seen; simpl; [tauto|].
  destruct (existsb _ seen); simpl; intros H.
  - right. eapply IH, H.
  - destruct H as [H|H]; [now left|right; eapply IH, H].
Qed.

Lemma keepFirst_head (x : OperationResponse) (r : list OperationResponse) :
  exists t, keepFirst (x :: r) = x :: t.
Proof. unfold keepFirst. simpl. eauto. Qed.

Lemma keepFirstFrom_app (seen l1 l2 : list OperationResponse) :
  keepFirstFrom seen (l1 ++ l2)
  = keepFirstFrom seen l1 ++ keepFirstFrom (seen ++ l1) l2.
Proof.
  revert seen. induction l1 as [|x r IH]; intros seen; simpl.
  - now rewrite app_nil_r.
  - rewrite IH, <- app_assoc. simpl. destruct (existsb _ seen); reflexivity.
Qed.

Lemma areEqual_unfold (a b : Model) :
  areEqual a b =
  String.eqb (type a) (type b) && String.eqb (base a) (base b)
  && eqOptString (template a) (template b)
  && match link a, link b with
     | Some alink, Some blink => areEqual alink blink
     | _, _ => true
     end.
Proof.
  destruct a as [n e t b0 tp l d dp df i1 i2 i3 i4 k im en ens ps].
  destruct l as [l|]; cbn.
  - destruct (link b); [|now rewrite andb_true_r].
    destruct (_ && _ && _); reflexivity.
  - now rewrite andb_true_r.
Qed.

Lemma getOperationErrors_errorsOf (operationResponses : list OperationResponse) :
  getOperationErrors operationResponses = errorsOf operationResponses.
Proof using.
  unfold getOperationErrors.
  induction operationResponses as [|r l IH]; [reflexivity|].
  cbn [filter errorsOf]. unfold truthy at 1.
  destruct (description r) as [d|] eqn:D.
  - destruct (300 <=? code r)%Z; cbn [andb]; [|exact IH].
    destruct (String.eqb d "") eqn:E; cbn [negb]; [exact IH|].
    cbn [map]. rewrite D, E, IH. reflexivity.
  - rewrite andb_false_r. exact IH.
Qed.

Lemma errorsOf_In (l : list OperationResponse) (e : OperationError) :
  In e (errorsOf l) <->
  exists r : OperationResponse,
    In r l /\ (300 <= code r)%Z /\ description r = Some (e_description e)
    /\ e_description e <> "" /\ e_code e = code r.
Proof using.
  clear getType getModel.
  induction l as [|r l IH]; simpl.
  - split; [tauto|]. intros (r & [] & _).
  - destruct (description r) as [d|] eqn:D.
    + destruct (Z.leb_spec 300 (code r)) as [C|C];
        destruct (String.eqb_spec d "") as [E|E]; cbn [andb negb].
      * rewrite IH. split.
        -- intros (r0 & H & R). exists r0. tauto.
        -- intros (r0 & [H|H] & C0 & D0 & N & R).
           ++ subst r0. rewrite D in D0. injection D0 as D0.
              exfalso. apply N. now rewrite <- D0.
           ++ exists r0. tauto.
      * simpl. rewrite IH. split.
        -- intros [H|(r0 & H & R)].
           ++ subst e. exists r. simpl. tauto.
           ++ exists r0. tauto.
        -- intros (r0 & [H|H] & C0 & D0 & N & R).
           ++ subst r0. left. destruct e as [ec ed]. simpl in D0, N, R |- *.
              rewrite D in D0. injection D0 as ->. now rewrite R.
           ++ right. exists r0. tauto.
      * rewrite IH. split.
        -- intros (r0 & H & R). exists r0. tauto.
        -- intros (r0 & [H|H] & C0 & D0 & N & R); [subst r0; lia|exists r0; tauto].
      * rewrite IH. split.
        -- intros (r0 & H & R). exists r0. tauto.
        -- intros (r0 & [H|H] & C0 & D0 & N & R); [subst r0; lia|exists r0; tauto].
    + rewrite IH. split.
      * intros (r0 & H & R). exists r0. tauto.
      * intros (r0 & [H|H] & C0 & D0 & N & R);
          [subst r0; rewrite D in D0; discriminate|exists r0; tauto].
Qed.

(** ** The claims on the response classifier *)

(** C6: [getOperationErrors] returns, in order, exactly the entries whose
    code is at least 300 and whose description is a non-empty string, each as
    the pair of its code and its description; an entry with a code of at
    least 300 and an absent or empty description contributes no error. *)
Theorem getOperationErrors_spec (operationResponses : list OperationResponse) :
  getOperationErrors operationResponses = errorsOf operationResponses
  /\ (forall e : OperationError,
        In e (getOperationErrors operationResponses) <->
        exists r : OperationResponse,
          In r operationResponses /\ (300 <= code r)%Z
          /\ description r = Some (e_description e)
          /\ e_description e <> "" /\ e_code e = code r)
  /\ (forall c : Z,
        (forall r : OperationResponse,
            In r operationResponses -> code r = c ->
            description r = None \/ description r = Some "") ->
        forall e : OperationError,
          In e (getOperationErrors operationResponses) -> e_code e <> c).
Proof using.
  split; [apply getOperationErrors_errorsOf|].
  rewrite getOperationErrors_errorsOf. split; [apply errorsOf_In|].
  intros c Hc e He Ec. apply errorsOf_In in He.
  destruct He as (r & Hr & _ & D & N & R).
  destruct (Hc r Hr) as [H|H]; congruence.
Qed.

(** C3: the results are the candidates without their repetitions.  The
    comparison [areEqual] is the equality of [type], [base] and [template],
    continued through the two links when both sides have one.  An entry is
    kept exactly when no entry before it compares equal to it, and the
    entries kept stay in the order of the list. *)
Theorem getOperationResults_deduplicates (operationResponses : list OperationResponse) :
  getOperationResults operationResponses = keepFirst (candidates operationResponses)
  /\ (forall a b : Model,
        areEqual a b =
        String.eqb (type a) (type b) && String.eqb (base a) (base b)
        && eqOptString (template a) (template b)
        && match link a, link b with
           | Some alink, Some blink => areEqual alink blink
           | _, _ => true
           end)
  /\ (forall (pre post : list OperationResponse) (x : OperationResponse),
        candidates operationResponses = pre ++ x :: post ->
        exists before after : list OperationResponse,
          getOperationResults operationResponses
          = before
            ++ (if existsb (fun item : OperationResponse => areEqual item x) pre
                then [] else [x])
            ++ after
          /\ (forall y, In y before -> In y pre)
          /\ (forall y, In y after -> In y post)).
Proof.
  split; [apply getOperationResults_keepFirst|]. split; [apply areEqual_unfold|].
  intros pre post x E. rewrite getOperationResults_keepFirst, E. unfold keepFirst.
  rewrite keepFirstFrom_app. simpl.
  exists (keepFirstFrom [] pre), (keepFirstFrom (pre ++ [x]) post).
  split; [|split].
  - destruct (existsb _ pre); reflexivity.
  - intros y. apply keepFirstFrom_In.
  - intros y. apply keepFirstFrom_In.
Qed.

Lemma candidates_In (operationResponses : list OperationResponse) (x : OperationResponse) :
  In x (candidates operationResponses) ->
  (In x operationResponses /\ qualifies x)
  \/ (x = voidResult /\ forall y, In y operationResponses -> ~ qualifies y).
Proof.
  unfold candidates. destruct (filter isSuccess operationResponses) as [|z r] eqn:F.
  - intros [H|[]]. right. split; [now symmetry|].
    intros y Hy Q. apply isSuccess_qualifies in Q.
    assert (In y (filter isSuccess operationResponses)) by (apply filter_In; tauto).
    rewrite F in H0. destruct H0.
  - intros H. rewrite <- F in H. apply filter_In in H. left.
    split; [tauto|]. apply isSuccess_qualifies. tauto.
Qed.

Lemma getOperationResults_nonempty (operationResponses : list OperationResponse) :
  getOperationResults operationResponses <> [].
Proof.
  rewrite getOperationResults_keepFirst.
  unfold candidates. destruct (filter isSuccess operationResponses) as [|z r].
  - discriminate.
  - destruct (keepFirst_head z r) as [t ->]. discriminate.
Qed.

(** C1, as the code has it: every result is an entry of the list with a
    code in [200, 300) other than 204, or the synthetic result; an entry
    with such a code is returned unless an earlier such entry compares equal
    to it; when no entry has such a code, the result is the synthetic [void]
    response alone; the result is never empty, also on a built operation. *)
Theorem getOperationResults_success_or_void (operationResponses : list OperationResponse) :
  (forall x : OperationResponse,
      In x (getOperationResults operationResponses) ->
      (In x operationResponses /\ qualifies x)
      \/ (x = voidResult /\ forall y, In y operationResponses -> ~ qualifies y))
  /\ (forall (pre post : list OperationResponse) (x : OperationResponse),
        filter isSuccess operationResponses = pre ++ x :: post ->
        existsb (fun item : OperationResponse => areEqual item x) pre = false ->
        In x (getOperationResults operationResponses))
  /\ (forall x : OperationResponse,
        In x (filter isSuccess operationResponses) <->
        In x operationResponses /\ qualifies x)
  /\ ((forall y, In y operationResponses -> ~ qualifies y) ->
      getOperationResults operationResponses = [voidResult])
  /\ (in_ voidResult = "response" /\ code voidResult = 200%Z
      /\ type voidResult = "void" /\ base voidResult = "void"
      /\ name voidResult = "" /\ description voidResult = Some "")
  /\ getOperationResults operationResponses <> []
  /\ (forall (openApi : Document) (url method : string) (op : OperationObject)
             (pathParams : OperationParameters) (responses : JsObject ResponseObject),
        oo_responses op = Some responses ->
        op_results (getOperation openApi url method op pathParams) <> []).
Proof.
  split; [|split; [|split; [|split; [|split; [|split]]]]].
  - intros x H. rewrite getOperationResults_keepFirst in H.
    apply keepFirstFrom_In in H. now apply candidates_In.
  - intros pre post x F E. rewrite getOperationResults_keepFirst.
    unfold candidates. rewrite F.
    assert (C : match pre ++ x :: post with
                | [] => [voidResult]
                | y :: r => y :: r
                end = pre ++ x :: post) by (destruct pre; reflexivity).
    rewrite C. unfold keepFirst. rewrite keepFirstFrom_app. simpl. rewrite E.
    apply in_or_app. right. now left.
  - intros x. rewrite filter_In, isSuccess_qualifies. tauto.
  - intros H. rewrite getOperationResults_keepFirst. unfold candidates.
    destruct (filter isSuccess operationResponses) as [|z r] eqn:F; [reflexivity|].
    exfalso. assert (Hz : In z (filter isSuccess operationResponses))
      by (rewrite F; now left).
    apply filter_In in Hz. apply (H z); [tauto|]. apply isSuccess_qualifies. tauto.
  - repeat split.
  - apply getOperationResults_nonempty.
  - intros openApi url method op pathParams responses H. unfold getOperation.
    cbn [op_results]. rewrite H. apply getOperationResults_nonempty.
Qed.

(** C10: [areEqual] holds as soon as the two sides agree on [type], [base]
    and [template] and one of them has no link, whatever the link of the
    other; it is therefore not transitive, and the deduplication drops a
    result without a link that follows one with a link and the same three
    fields. *)
Theorem areEqual_ignores_one_sided_link :
  (forall a b : Model,
      type a = type b -> base a = base b -> template a = template b ->
      link a = None \/ link b = None ->
      areEqual a b = true)
  /\ (exists a b c : Model,
        areEqual a b = true /\ areEqual b c = true /\ areEqual a c = false)
  /\ (exists r1 r2 : OperationResponse,
        link r1 <> None /\ link r2 = None /\ code r1 <> code r2
        /\ getOperationResults [r1; r2] = [r1]).
Proof.
  split; [|split].
  - intros a b T B P L. rewrite (areEqual_no_link a b L), T, B, P.
    now rewrite !String.eqb_refl, eqOptString_refl.
  - pose (leaf t := {| name := ""; export := "generic"; type := t; base := t;
       template := None; link := None; description := None;
       deprecated := None; default := None;
       isDefinition := false; isReadOnly := false; isRequired := false;
       isNullable := false; constraints := noConstraints;
       imports := []; enum := []; enums := []; properties := [] |}).
    pose (arr l := {| name := ""; export := "array"; type := "list"; base := "list";
       template := None; link := l; description := None;
       deprecated := None; default := None;
       isDefinition := false; isReadOnly := false; isRequired := false;
       isNullable := false; constraints := noConstraints;
       imports := []; enum := []; enums := []; properties := [] |}).
    exists (arr (Some (leaf "string"))), (arr None), (arr (Some (leaf "number"))).
    repeat split.
  - pose (leaf := {| name := ""; export := "generic"; type := "string"; base := "string";
       template := None; link := None; description := None;
       deprecated := None; default := None;
       isDefinition := false; isReadOnly := false; isRequired := false;
       isNullable := false; constraints := noConstraints;
       imports := []; enum := []; enums := []; properties := [] |}).
    pose (arr l := {| name := ""; export := "array"; type := "list"; base := "list";
       template := None; link := l; description := None;
       deprecated := None; default := None;
       isDefinition := false; isReadOnly := false; isRequired := false;
       isNullable := false; constraints := noConstraints;
       imports := []; enum := []; enums := []; properties := [] |}).
    exists {| in_ := "response"; code := 200%Z; r_model := arr (Some leaf) |},
           {| in_ := "response"; code := 201%Z; r_model := arr None |}.
    repeat split; try discriminate.
Qed.

(** C7: a response without content and with at least one header is
    described by its first header: [in] is "header", [name] is the first key
    of the header map, [type] and [base] are "string".  The [responseHeader]
    of an operation is the name of the first of its results whose [in] is
    "header", and null when it has none. *)
Theorem header_response_and_responseHeader :
  (forall (openApi : Document) (response : ResponseObject) (responseCode : Z)
          (header : string) (h : Header) (others : JsObject Header),
      resp_content response = None ->
      resp_headers response = Some ((header, h) :: others) ->
      let r := getOperationResponse openApi response responseCode in
      in_ r = "header" /\ name r = header /\ type r = "string"
      /\ base r = "string" /\ code r = responseCode)
  /\ (forall (openApi : Document) (url method : string) (op : OperationObject)
             (pathParams : OperationParameters),
        let operation := getOperation openApi url method op pathParams in
        op_results operation
        = match oo_responses op with
          | Some responses =>
              getOperationResults (getOperationResponses openApi responses)
          | None => []
          end
        /\ op_responseHeader operation
           = match find (fun r : OperationResponse => String.eqb (in_ r) "header")
                        (op_results operation) with
             | Some r => Some (name r)
             | None => None
             end).
Proof.
  split.
  - intros openApi response responseCode header h others C H r.
    subst r. unfold getOperationResponse. rewrite C, H. cbn. repeat split.
  - intros openApi url method op pathParams operation. subst operation.
    unfold getOperation. cbn [op_results op_responseHeader].
    destruct (oo_responses op) as [responses|]; split; reflexivity.
Qed.

(** ** The claim on the service aggregator *)

Lemma isTagged_spec (serviceName : string) (op : OperationObject) :
  isTagged serviceName (Some op) = true <->
  exists tags, oo_tags op = Some tags /\ tags <> [] /\ In serviceName tags.
Proof.
  unfold isTagged, includes. destruct (oo_tags op) as [tags|].
  - rewrite existsb_exists. split.
    + intros (t & Ht & E). apply String.eqb_eq in E. subst t.
      exists tags. repeat split; [|assumption]. intros ->. destruct Ht.
    + intros (tags' & E & _ & Ht). injection E as <-. exists serviceName.
      split; [assumption|apply String.eqb_refl].
  - split; [discriminate|]. intros (tags & E & _). discriminate.
Qed.

Lemma pathOperations_In (doc : Document) (serviceName path : string)
    (pathObject : option PathItemObject) (o : Operation) :
  In o (pathOperations doc serviceName (path, pathObject)) <->
  exists (po : PathItemObject) (method : string) (op : OperationObject),
    pathObject = Some po /\ In (method, Some op) (methodsOf po)
    /\ isTagged serviceName (Some op) = true
    /\ o = getOperation doc path method op (pathParamsOf doc po).
Proof.
  unfold pathOperations. destruct pathObject as [po|].
  - rewrite in_flat_map. split.
    + intros ([method op] & Hm & Ho). destruct op as [op|].
      * destruct (isTagged serviceName (Some op)) eqn:T; [|destruct Ho].
        destruct Ho as [Ho|[]]. exists po, method, op. subst o.
        repeat split; assumption.
      * destruct (isTagged serviceName None); destruct Ho.
    + intros (po' & method & op & E & Hm & T & Ho). injection E as <-.
      exists (method, Some op). split; [assumption|]. rewrite T. now left.
  - split; [intros []|]. intros (po & method & op & E & _). discriminate.
Qed.

Lemma getService_In (doc : Document) (tag : TagObject) (o : Operation) :
  In o (svc_operations (getService doc tag)) <->
  exists (path : string) (po : PathItemObject) (method : string) (op : OperationObject),
    In (path, Some po) (pathsOf doc) /\ In (method, Some op) (methodsOf po)
    /\ isTagged (tag_name tag) (Some op) = true
    /\ o = getOperation doc path method op (pathParamsOf doc po).
Proof.
  unfold getService. cbn [svc_operations]. fold (pathsOf doc).
  rewrite in_flat_map. split.
  - intros ([path pathObject] & Hp & Ho). apply pathOperations_In in Ho.
    destruct Ho as (po & method & op & E & R). subst pathObject.
    exists path, po, method, op. tauto.
  - intros (path & po & method & op & Hp & R). exists (path, Some po).
    split; [assumption|]. apply pathOperations_In. exists po, method, op. tauto.
Qed.

Lemma operationsAt_app (path method : string) (l1 l2 : list Operation) :
  operationsAt path method (l1 ++ l2)
  = operationsAt path method l1 ++ operationsAt path method l2.
Proof. apply filter_app. Qed.

Lemma operationsAt_other_path (doc : Document) (serviceName path method path' : string)
    (pathObject : option PathItemObject) :
  path' <> path ->
  operationsAt path method (pathOperations doc serviceName (path', pathObject)) = [].
Proof.
  intros N. unfold operationsAt.
  destruct (filter _ _) as [|o r] eqn:F; [reflexivity|]. exfalso.
  assert (H : In o (o :: r)) by now left. rewrite <- F in H.
  apply filter_In in H. destruct H as [H E]. apply pathOperations_In in H.
  destruct H as (po & m & op & _ & _ & _ & ->). cbn in E.
  apply andb_true_iff in E. destruct E as [E _]. apply String.eqb_eq in E.
  contradiction.
Qed.

(** One path item gives at most one operation per method, with the
    upper-cased method in it. *)
Lemma operationsAt_same_path (doc : Document) (serviceName path method : string)
    (po : PathItemObject) (op : OperationObject) :
  In (method, Some op) (methodsOf po) ->
  operationsAt path method (pathOperations doc serviceName (path, Some po))
  = if isTagged serviceName (Some op)
    then [getOperation doc path method op (pathParamsOf doc po)] else [].
Proof.
  intros H. unfold pathOperations. fold (pathParamsOf doc po).
  set (pp := pathParamsOf doc po).
  assert (one : forall m (x : option OperationObject),
    operationsAt path method
      (if isTagged serviceName x
       then match x with Some x => [getOperation doc path m x pp] | None => [] end
       else [])
    = if String.eqb (strUpper m) (strUpper method) && isTagged serviceName x
      then match x with Some x => [getOperation doc path m x pp] | None => [] end
      else []).
  { intros m x. destruct (isTagged serviceName x) eqn:T.
    - destruct x as [x|]; [|now rewrite andb_true_r; destruct (_ =? _)%string].
      unfold operationsAt. cbn [filter op_path op_method getOperation].
      rewrite String.eqb_refl, andb_true_r. cbn [andb].
      destruct (String.eqb (strUpper m) (strUpper method)); reflexivity.
    - now rewrite andb_false_r. }
  unfold methodsOf in *. cbn [flat_map].
  rewrite !operationsAt_app, !one. cbn [In] in H.
  destruct H as [H|[H|[H|[H|[H|[H|[H|[]]]]]]]]; injection H as <- E;
    rewrite E; cbn - [isTagged getOperation];
    repeat match goal with
           | |- context [if isTagged ?n ?x then _ else _] =>
               destruct (isTagged n x); cbn - [isTagged getOperation]
           end;
    repeat match goal with
           | |- context [match ?x with Some _ => _ | None => _ end] =>
               destruct x; cbn - [isTagged getOperation]
           end; try reflexivity.
Qed.

Lemma operationsAt_absent (doc : Document) (serviceName path method : string)
    (paths : JsObject (option PathItemObject)) :
  ~ In path (keys paths) ->
  operationsAt path method (flat_map (pathOperations doc serviceName) paths) = [].
Proof.
  induction paths as [|[path' x] rest IH]; intros N; [reflexivity|].
  cbn [flat_map]. rewrite operationsAt_app.
  rewrite operationsAt_other_path by (intros ->; apply N; now left).
  apply IH. intros H. apply N. now right.
Qed.

Lemma operationsAt_unique (doc : Document) (serviceName path method : string)
    (paths : JsObject (option PathItemObject)) (po : PathItemObject)
    (op : OperationObject) :
  NoDup (keys paths) -> In (path, Some po) paths ->
  In (method, Some op) (methodsOf po) ->
  operationsAt path method (flat_map (pathOperations doc serviceName) paths)
  = if isTagged serviceName (Some op)
    then [getOperation doc path method op (pathParamsOf doc po)] else [].
Proof.
  intros D Hp Hm. induction paths as [|[path' x] rest IH]; [destruct Hp|].
  cbn [keys map fst] in D. apply NoDup_cons_iff in D. destruct D as [N D].
  cbn [flat_map]. rewrite operationsAt_app. destruct Hp as [E|Hp].
  - injection E as -> ->. rewrite (@operationsAt_same_path doc serviceName path method po op Hm).
    fold (keys rest) in N. rewrite (@operationsAt_absent doc serviceName path method rest N).
    apply app_nil_r.
  - assert (path' <> path).
    { intros ->. apply N. change path with (fst (path, Some po)).
      now apply in_map. }
    rewrite operationsAt_other_path by assumption. now apply IH.
Qed.

Lemma getService_operations (doc : Document) (tag : TagObject) :
  svc_operations (getService doc tag)
  = flat_map (pathOperations doc (tag_name tag)) (pathsOf doc).
Proof. reflexivity. Qed.

(** C8: there is one service per declared tag; an operation is built into a
    service exactly when it declares a non-empty tag list that contains the
    name of the service; an operation with two of the declared tags stands
    once in each of the two services, as the same value; an operation without
    tags stands in no service. *)
Theorem operations_grouped_by_tag (doc : Document) :
  getServices doc = map (getService doc) (tagsOf doc)
  /\ (forall (tag : TagObject) (o : Operation),
        In o (svc_operations (getService doc tag)) <->
        exists (path : string) (po : PathItemObject) (method : string)
               (op : OperationObject) (tags : list string),
          In (path, Some po) (pathsOf doc) /\ In (method, Some op) (methodsOf po)
          /\ oo_tags op = Some tags /\ tags <> [] /\ In (tag_name tag) tags
          /\ o = getOperation doc path method op (pathParamsOf doc po))
  /\ (forall (path : string) (po : PathItemObject) (method : string)
             (op : OperationObject) (tags : list string) (t1 t2 : TagObject),
        NoDup (keys (pathsOf doc)) ->
        In (path, Some po) (pathsOf doc) -> In (method, Some op) (methodsOf po) ->
        oo_tags op = Some tags ->
        In t1 (tagsOf doc) -> In t2 (tagsOf doc) ->
        In (tag_name t1) tags -> In (tag_name t2) tags ->
        let o := getOperation doc path method op (pathParamsOf doc po) in
        In (getService doc t1) (getServices doc)
        /\ In (getService doc t2) (getServices doc)
        /\ operationsAt path method (svc_operations (getService doc t1)) = [o]
        /\ operationsAt path method (svc_operations (getService doc t2)) = [o])
  /\ (forall (path : string) (po : PathItemObject) (method : string)
             (op : OperationObject) (tag : TagObject),
        NoDup (keys (pathsOf doc)) ->
        In (path, Some po) (pathsOf doc) -> In (method, Some op) (methodsOf po) ->
        oo_tags op = None \/ oo_tags op = Some [] ->
        operationsAt path method (svc_operations (getService doc tag)) = []).
Proof.
  split; [reflexivity|]. split; [|split].
  - intros tag o. rewrite getService_In. split.
    + intros (path & po & method & op & Hp & Hm & T & Ho).
      apply isTagged_spec in T. destruct T as (tags & T).
      exists path, po, method, op, tags. tauto.
    + intros (path & po & method & op & tags & Hp & Hm & T1 & T2 & T3 & Ho).
      exists path, po, method, op. repeat split; try assumption.
      apply isTagged_spec. exists tags. tauto.
  - intros path po method op tags t1 t2 D Hp Hm T D1 D2 H1 H2 o.
    assert (tagged : forall t, In (tag_name t) tags ->
                               isTagged (tag_name t) (Some op) = true).
    { intros t Ht. apply isTagged_spec. exists tags. repeat split; try assumption.
      intros ->. destruct Ht. }
    unfold getServices. fold (tagsOf doc). repeat split.
    + now apply in_map.
    + now apply in_map.
    + rewrite getService_operations.
      rewrite (@operationsAt_unique doc (tag_name t1) path method _ po op D Hp Hm).
      now rewrite (tagged t1 H1).
    + rewrite getService_operations.
      rewrite (@operationsAt_unique doc (tag_name t2) path method _ po op D Hp Hm).
      now rewrite (tagged t2 H2).
  - intros path po method op tag D Hp Hm T.
    rewrite getService_operations.
    rewrite (@operationsAt_unique doc (tag_name tag) path method _ po op D Hp Hm).
    unfold isTagged. destruct T as [-> | ->]; reflexivity.
Qed.

(** ** The claim on the content negotiator *)

Lemma lookup_In V (o : JsObject V) (k : string) (v : V) :
  NoDup (keys o) -> In (k, v) o -> lookup k o = Some v.
Proof.
  induction o as [|[k' v'] r IH]; intros D H; [destruct H|].
  cbn [keys map fst] in D. apply NoDup_cons_iff in D. destruct D as [N D].
  simpl. destruct H as [H|H].
  - injection H as -> ->. now rewrite String.eqb_refl.
  - destruct (String.eqb_spec k k') as [->|_]; [|now apply IH].
    exfalso. apply N. change k' with (fst (k', v)). now apply in_map.
Qed.

Lemma schemaOf_entry (content : ContentMap) (k : string) (m : option MediaTypeObject) :
  NoDup (keys content) -> In (k, m) content ->
  isDefined (schemaOf content k) = carriesSchema (k, m)
  /\ contentAt content k
     = option_map (fun s => {| c_mediaType := k; c_schema := s |}) (entrySchema (k, m)).
Proof.
  intros D H. unfold schemaOf, contentAt, schemaOf, carriesSchema, entrySchema.
  rewrite (@lookup_In _ content k m D H). cbn [snd].
  destruct m as [[[ | | |s]]|]; split; reflexivity.
Qed.

Lemma find_filter A (p q : A -> bool) (l : list A) :
  find p (filter q l) = find (fun x => q x && p x) l.
Proof.
  induction l as [|x r IH]; [reflexivity|]. simpl.
  destruct (q x); simpl; [destruct (p x); [reflexivity|exact IH]|exact IH].
Qed.

Lemma find_first A (p : A -> bool) (pre : list A) (x : A) (post : list A) :
  (forall y, In y pre -> p y = false) -> p x = true ->
  find p (pre ++ x :: post) = Some x.
Proof.
  intros H Hx. induction pre as [|y r IH]; simpl; [now rewrite Hx|].
  rewrite (H y) by now left. apply IH. intros z Hz. apply H. now right.
Qed.

Lemma find_none_all A (p : A -> bool) (l : list A) :
  (forall y, In y l -> p y = false) -> find p l = None.
Proof.
  induction l as [|y r IH]; intros H; [reflexivity|]. simpl.
  rewrite (H y) by now left. apply IH. intros z Hz. apply H. now right.
Qed.

(** A list has a first element with a property, or none with it. *)
Lemma first_or_none A (p : A -> bool) (l : list A) :
  (forall y, In y l -> p y = false)
  \/ exists pre x post, l = pre ++ x :: post /\ p x = true
                        /\ forall y, In y pre -> p y = false.
Proof.
  induction l as [|y r IH]; [left; intros y []|].
  destruct (p y) eqn:Hy.
  - right. exists [], y, r. repeat split; [assumption|intros z []].
  - destruct IH as [IH|(pre & x & post & -> & Hx & Hpre)].
    + left. intros z [<-|Hz]; [assumption|now apply IH].
    + right. exists (y :: pre), x, post. repeat split; [assumption|].
      intros z [<-|Hz]; [assumption|now apply Hpre].
Qed.

Section ContentWellFormed.
Variable content : ContentMap.
Hypothesis keys_distinct : NoDup (keys content).

Lemma find_keys (q : string -> bool) (pre post : ContentMap) (k : string)
    (m : option MediaTypeObject) :
  content = pre ++ (k, m) :: post ->
  q k && carriesSchema (k, m) = true ->
  (forall e, In e pre -> q (fst e) && carriesSchema e = false) ->
  find (fun x => q x && isDefined (schemaOf content x)) (keys content) = Some k.
Proof.
  intros E Hk Hpre.
  assert (K : keys content = keys pre ++ k :: keys post)
    by (rewrite E; unfold keys; now rewrite map_app).
  rewrite K.
  apply find_first.
  - intros y Hy. apply in_map_iff in Hy. destruct Hy as ([k' m'] & <- & Hy).
    cbn [fst].
    rewrite (proj1 (@schemaOf_entry content k' m' keys_distinct
                      ltac:(rewrite E; apply in_or_app; now left))).
    now apply (Hpre (k', m')).
  - rewrite (proj1 (@schemaOf_entry content k m keys_distinct
                      ltac:(rewrite E; apply in_or_app; right; now left))).
    exact Hk.
Qed.

Lemma find_keys_none (q : string -> bool) :
  (forall e, In e content -> q (fst e) && carriesSchema e = false) ->
  find (fun x => q x && isDefined (schemaOf content x)) (keys content) = None.
Proof.
  intros H. apply find_none_all. intros y Hy. apply in_map_iff in Hy.
  destruct Hy as ([k m] & <- & Hy). cbn [fst].
  rewrite (proj1 (@schemaOf_entry content k m keys_distinct Hy)).
  now apply (H (k, m)).
Qed.

Hypothesis keys_not_empty : forall k, In k (keys content) -> k <> "".

Lemma truthy_key (k : string) (m : option MediaTypeObject) :
  In (k, m) content -> truthy (Some k) = true.
Proof.
  intros H. simpl. apply negb_true_iff, String.eqb_neq, keys_not_empty.
  change k with (fst (k, m)). now apply in_map.
Qed.

(** The first basic media type with a schema is chosen. *)
Lemma getContent_basic (pre post : ContentMap) (k : string)
    (m : option MediaTypeObject) (s : SchemaObject) :
  content = pre ++ (k, m) :: post ->
  isBasicMediaType k = true -> entrySchema (k, m) = Some s ->
  (forall e, In e pre -> isBasicWithSchema e = false) ->
  getContent content = Some {| c_mediaType := k; c_schema := s |}.
Proof.
  intros E B S Hpre. assert (Hin : In (k, m) content)
    by (rewrite E; apply in_or_app; right; now left).
  unfold getContent. rewrite find_filter.
  rewrite (@find_keys isBasicMediaType pre post k m E).
  - rewrite (@truthy_key k m Hin).
    rewrite (proj2 (@schemaOf_entry content k m keys_distinct Hin)), S.
    reflexivity.
  - unfold carriesSchema. now rewrite B, S.
  - exact Hpre.
Qed.

(** Without a basic media type with a schema, the first media type with
    a schema is chosen. *)
Lemma getContent_fallback (pre post : ContentMap) (k : string)
    (m : option MediaTypeObject) (s : SchemaObject) :
  content = pre ++ (k, m) :: post ->
  (forall e, In e content -> isBasicWithSchema e = false) ->
  entrySchema (k, m) = Some s ->
  (forall e, In e pre -> carriesSchema e = false) ->
  getContent content = Some {| c_mediaType := k; c_schema := s |}.
Proof.
  intros E NB S Hpre. assert (Hin : In (k, m) content)
    by (rewrite E; apply in_or_app; right; now left).
  unfold getContent. rewrite find_filter.
  rewrite (@find_keys_none isBasicMediaType NB). cbn [truthy].
  assert (F : find (fun mediaType => isDefined (schemaOf content mediaType))
                   (keys content) = Some k).
  { apply (@find_keys (fun _ => true) pre post k m E).
    - unfold carriesSchema. now rewrite S.
    - intros e He. now rewrite (Hpre e He). }
  rewrite F, (@truthy_key k m Hin).
  rewrite (proj2 (@schemaOf_entry content k m keys_distinct Hin)), S.
  reflexivity.
Qed.

(** Null is returned exactly when no media type carries a schema. *)
Lemma getContent_null :
  getContent content = None <-> forall e, In e content -> carriesSchema e = false.
Proof.
  split.
  - intros G. destruct (first_or_none carriesSchema content)
      as [H|(pre & [k m] & post & E & Hx & Hpre)]; [exact H|].
    exfalso. destruct (entrySchema (k, m)) as [s|] eqn:S;
      [|unfold carriesSchema in Hx; rewrite S in Hx; discriminate].
    destruct (first_or_none isBasicWithSchema content)
      as [NB|(pre' & [k' m'] & post' & E' & Hx' & Hpre')].
    + rewrite (@getContent_fallback pre post k m s E NB S Hpre) in G. discriminate.
    + unfold isBasicWithSchema in Hx'. cbn [fst] in Hx'.
      apply andb_true_iff in Hx'. destruct Hx' as [B C].
      destruct (entrySchema (k', m')) as [s'|] eqn:S';
        [|unfold carriesSchema in C; rewrite S' in C; discriminate].
      rewrite (@getContent_basic pre' post' k' m' s' E' B S' Hpre') in G.
      discriminate.
  - intros H. unfold getContent. rewrite find_filter.
    rewrite (find_keys_none isBasicMediaType)
      by (intros e He; rewrite (H e He); apply andb_false_r).
    cbn [truthy].
    assert (F : find (fun mediaType => isDefined (schemaOf content mediaType))
                     (keys content) = None).
    { apply (@find_keys_none (fun _ => true)). intros e He. now rewrite (H e He). }
    now rewrite F.
Qed.
End ContentWellFormed.

(** C5, at the input where the code departs from it: a map whose only
    media type is the empty string carries a schema, and [getContent]
    returns null, because the key found is tested for truthiness. *)
Theorem getContent_empty_media_type (s : SchemaObject) :
  let content : ContentMap := [("", Some {| mt_schema := SchemaValue s |})] in
  NoDup (keys content)
  /\ find carriesSchema content = Some ("", Some {| mt_schema := SchemaValue s |})
  /\ getContent content = None.
Proof.
  cbn. repeat split. constructor; [intros []|constructor].
Qed.

(** ** The claim on the keys of a responses map *)

Lemma insert_In A (compare : A -> A -> Z) (x y : A) (l : list A) :
  In y (insert compare x l) <-> y = x \/ In y l.
Proof.
  induction l as [|z r IH]; simpl; [intuition congruence|].
  destruct (0 <? compare x z)%Z; simpl; [rewrite IH|]; intuition congruence.
Qed.

Lemma sort_In A (compare : A -> A -> Z) (y : A) (l : list A) :
  In y (sort compare l) <-> In y l.
Proof.
  induction l as [|x r IH]; [reflexivity|].
  change (sort compare (x :: r)) with (insert compare x (sort compare r)).
  rewrite insert_In, IH. simpl. intuition congruence.
Qed.

Lemma isDigit_range (c : ascii) :
  isDigit c = true <-> 48 <= codeOf c <= 57.
Proof. unfold isDigit. rewrite andb_true_iff, !Nat.leb_le. tauto. Qed.

Lemma digitValue_decimal (c : ascii) :
  digitValue 10 c
  = if isDigit c then Some (Z.of_nat (codeOf c) - 48)%Z else None.
Proof.
  unfold digitValue. destruct (isDigit c) eqn:D.
  - apply isDigit_range in D.
    destruct (Z.ltb_spec (Z.of_nat (codeOf c) - 48) 10); [reflexivity|lia].
  - unfold isLower, isUpper.
    destruct (Nat.leb_spec 97 (codeOf c)), (Nat.leb_spec (codeOf c) 122);
      cbn [andb].
    all: try (destruct (Z.ltb_spec (Z.of_nat (codeOf c) - 87) 10); [lia|reflexivity]).
    all: destruct (Nat.leb_spec 65 (codeOf c)), (Nat.leb_spec (codeOf c) 90);
      cbn [andb]; try reflexivity.
    all: destruct (Z.ltb_spec (Z.of_nat (codeOf c) - 55) 10); [lia|reflexivity].
Qed.

Lemma readDigits_decimal (ds rest : chars) (acc : option Z) :
  forallb isDigit ds = true ->
  match rest with [] => true | c :: _ => negb (isDigit c) end = true ->
  readDigits 10 acc (ds ++ rest)
  = match ds, acc with
    | [], _ => acc
    | _ :: _, Some a => Some (decimalFrom a ds)
    | _ :: _, None => Some (decimalValue ds)
    end.
Proof.
  intros D R. revert acc. induction ds as [|d ds IH]; intros acc.
  - simpl. destruct rest as [|c rest]; [reflexivity|]. simpl.
    rewrite digitValue_decimal. apply negb_true_iff in R. now rewrite R.
  - cbn [forallb] in D. apply andb_true_iff in D. destruct D as [Dd D].
    cbn [app readDigits]. rewrite digitValue_decimal, Dd, (IH D).
    destruct ds as [|d' ds]; destruct acc as [a|]; try reflexivity.
    all: unfold decimalValue; cbn [decimalFrom]; repeat f_equal; lia.
Qed.

Lemma decimalFrom_nonneg (ds : chars) (acc : Z) :
  forallb isDigit ds = true -> (0 <= acc)%Z -> (0 <= decimalFrom acc ds)%Z.
Proof.
  revert acc. induction ds as [|d ds IH]; intros acc D A; [exact A|].
  cbn [forallb] in D. apply andb_true_iff in D. destruct D as [Dd D].
  apply isDigit_range in Dd. cbn [decimalFrom]. apply IH; [assumption|lia].
Qed.

Lemma dropWhile_app_stop (p : ascii -> bool) (l1 l2 : chars) :
  forallb p l1 = true ->
  match l2 with [] => true | c :: _ => negb (p c) end = true ->
  dropWhile p (l1 ++ l2) = l2.
Proof.
  intros H S. induction l1 as [|c r IH]; simpl.
  - destruct l2 as [|c r]; [reflexivity|]. simpl.
    apply negb_true_iff in S. now rewrite S.
  - cbn [forallb] in H. apply andb_true_iff in H. destruct H as [Hc H].
    rewrite Hc. now apply IH.
Qed.

Lemma ofString_toString (l : chars) : ofString (toString l) = l.
Proof. apply list_ascii_of_string_of_list_ascii. Qed.


Lemma digit_facts (c : ascii) :
  isDigit c = true ->
  isSpace c = false /\ Ascii.eqb c "-" = false /\ Ascii.eqb c "+" = false
  /\ Ascii.eqb c "x" = false /\ Ascii.eqb c "X" = false.
Proof.
  intros D. apply isDigit_range in D. unfold isSpace.
  repeat split.
  - destruct (Nat.leb_spec 9 (codeOf c)), (Nat.leb_spec (codeOf c) 13),
      (Nat.eqb_spec (codeOf c) 32), (Nat.eqb_spec (codeOf c) 160);
      cbn; try reflexivity; lia.
  - apply Ascii.eqb_neq. intros ->. cbn in D. lia.
  - apply Ascii.eqb_neq. intros ->. cbn in D. lia.
  - apply Ascii.eqb_neq. intros ->. cbn in D. lia.
  - apply Ascii.eqb_neq. intros ->. cbn in D. lia.
Qed.

(** [parseInt] on white space, an optional sign, decimal digits, and
    anything that does not go on with the number. *)
Lemma parseInt_decimal (ws sign ds rest : chars) :
  forallb isSpace ws = true ->
  sign = [] \/ sign = ["+"%char] \/ sign = ["-"%char] ->
  ds <> [] -> forallb isDigit ds = true -> endsNumber ds rest = true ->
  parseInt (toString (ws ++ sign ++ ds ++ rest))
  = Some (if match sign with ["-"%char] => true | _ => false end
          then - decimalValue ds else decimalValue ds)%Z.
Proof.
  intros W S N D E. unfold parseInt. rewrite ofString_toString.
  destruct ds as [|d ds]; [congruence|]. clear N.
  assert (Dd : isDigit d = true)
    by (cbn [forallb] in D; apply andb_true_iff in D; tauto).
  destruct (digit_facts d Dd) as (F1 & F2 & F3 & F4 & F5).
  assert (T : trimStart (ws ++ sign ++ (d :: ds) ++ rest) = sign ++ (d :: ds) ++ rest).
  { apply dropWhile_app_stop; [assumption|].
    destruct S as [->|[->| ->]]; cbn; [now rewrite F1|reflexivity|reflexivity]. }
  rewrite T.
  assert (R : stripPrefix ((d :: ds) ++ rest) = (10%Z, (d :: ds) ++ rest)).
  { unfold stripPrefix. destruct ds as [|d' ds].
    - destruct rest as [|c rest]; [reflexivity|].
      cbn [app]. cbn [endsNumber] in E. apply andb_true_iff in E.
      destruct E as [_ E]. apply negb_true_iff in E. now rewrite E.
    - cbn [app].
      assert (Dd' : isDigit d' = true).
      { cbn [forallb] in D. apply andb_true_iff in D. destruct D as [_ D].
        apply andb_true_iff in D. tauto. }
      destruct (digit_facts d' Dd') as (_ & _ & _ & X1 & X2).
      now rewrite X1, X2, andb_false_r. }
  assert (G : readDigits 10 None ((d :: ds) ++ rest) = Some (decimalValue (d :: ds))).
  { rewrite readDigits_decimal; [reflexivity|assumption|].
    destruct rest as [|c rest]; [reflexivity|].
    cbn [endsNumber] in E. apply andb_true_iff in E. tauto. }
  destruct S as [->|[->| ->]].
  - assert (SS : stripSign ([] ++ (d :: ds) ++ rest) = (1%Z, (d :: ds) ++ rest))
      by (unfold stripSign; cbn [app]; now rewrite F2, F3).
    rewrite SS. cbv beta iota. rewrite R. cbv beta iota. rewrite G.
    cbn [option_map]. f_equal; try lia.
  - change (stripSign (["+"%char] ++ (d :: ds) ++ rest)) with (1%Z, (d :: ds) ++ rest).
    cbv beta iota. rewrite R. cbv beta iota. rewrite G.
    cbn [option_map]. f_equal; try lia.
  - change (stripSign (["-"%char] ++ (d :: ds) ++ rest)) with ((-1)%Z, (d :: ds) ++ rest).
    cbv beta iota. rewrite R. cbv beta iota. rewrite G.
    cbn [option_map]. f_equal; try lia.
Qed.

Lemma getOperationResponses_In (openApi : Document)
    (responses : JsObject ResponseObject) (x : OperationResponse) :
  In x (getOperationResponses openApi responses) <->
  exists (key : string) (r : ResponseObject) (c : Z),
    In (key, r) responses /\ getOperationResponseCode key = Some c /\ c <> 0%Z
    /\ x = getOperationResponse openApi (getRefResponse openApi r) c.
Proof.
  unfold getOperationResponses. rewrite sort_In, in_flat_map. split.
  - intros ([key r] & H & Hx). destruct (getOperationResponseCode key) as [c|] eqn:C;
      [|destruct Hx].
    destruct (Z.eqb_spec c 0) as [Z0|Z0]; [destruct Hx|].
    destruct Hx as [Hx|[]]. exists key, r, c. repeat split; auto.
  - intros (key & r & c & H & C & Z0 & ->). exists (key, r). split; [assumption|].
    rewrite C. destruct (Z.eqb_spec c 0); [contradiction|now left].
Qed.

Lemma digitValue_hex (c : ascii) :
  digitValue 16 c = if isHexDigit c then Some (hexDigitValue c) else None.
Proof. destruct c as [[] [] [] [] [] [] [] []]; vm_compute; reflexivity. Qed.

Lemma hexDigitValue_nonneg (c : ascii) :
  implb (isHexDigit c) (0 <=? hexDigitValue c)%Z = true.
Proof. destruct c as [[] [] [] [] [] [] [] []]; vm_compute; reflexivity. Qed.

Lemma readDigits_hex (hs rest : chars) (acc : option Z) :
  forallb isHexDigit hs = true -> endsHex rest = true ->
  readDigits 16 acc (hs ++ rest)
  = match hs, acc with
    | [], _ => acc
    | _ :: _, Some a => Some (hexFrom a hs)
    | _ :: _, None => Some (hexValue hs)
    end.
Proof.
  intros D R. revert acc. induction hs as [|d hs IH]; intros acc.
  - simpl. destruct rest as [|c rest]; [reflexivity|]. simpl.
    rewrite digitValue_hex. cbn [endsHex] in R. apply negb_true_iff in R.
    now rewrite R.
  - cbn [forallb] in D. apply andb_true_iff in D. destruct D as [Dd D].
    cbn [app readDigits]. rewrite digitValue_hex, Dd, (IH D).
    destruct hs as [|d' hs]; destruct acc as [a|]; try reflexivity.
Qed.

Lemma hexFrom_nonneg (hs : chars) (acc : Z) :
  forallb isHexDigit hs = true -> (0 <= acc)%Z -> (0 <= hexFrom acc hs)%Z.
Proof.
  revert acc. induction hs as [|d hs IH]; intros acc D A; [exact A|].
  cbn [forallb] in D. apply andb_true_iff in D. destruct D as [Dd D].
  cbn [hexFrom]. apply IH; [assumption|].
  pose proof (hexDigitValue_nonneg d) as H. rewrite Dd in H. cbn [implb] in H.
  apply Z.leb_le in H. lia.
Qed.

(** [parseInt] on white space, an optional sign, the prefix [0x] or [0X],
    hexadecimal digits, and anything that does not go on with the number. *)
Lemma parseInt_hex (ws sign hs rest : chars) (x : ascii) :
  forallb isSpace ws = true ->
  sign = [] \/ sign = ["+"%char] \/ sign = ["-"%char] ->
  x = "x"%char \/ x = "X"%char ->
  forallb isHexDigit hs = true -> endsHex rest = true ->
  parseInt (toString (ws ++ sign ++ ["0"%char; x] ++ hs ++ rest))
  = match hs with
    | [] => None
    | _ :: _ =>
        Some (if match sign with ["-"%char] => true | _ => false end
              then - hexValue hs else hexValue hs)%Z
    end.
Proof.
  intros W S X D E. unfold parseInt. rewrite ofString_toString.
  assert (T : trimStart (ws ++ sign ++ ["0"%char; x] ++ hs ++ rest)
              = sign ++ ["0"%char; x] ++ hs ++ rest).
  { apply dropWhile_app_stop; [assumption|].
    destruct S as [->|[->| ->]]; reflexivity. }
  rewrite T.
  assert (P : stripPrefix (["0"%char; x] ++ hs ++ rest) = (16%Z, hs ++ rest))
    by (destruct X as [->| ->]; reflexivity).
  assert (G : readDigits 16 None (hs ++ rest)
              = match hs with [] => None | _ :: _ => Some (hexValue hs) end).
  { rewrite (readDigits_hex hs rest None D E). destruct hs; reflexivity. }
  destruct S as [->|[->| ->]].
  - change (stripSign ([] ++ ["0"%char; x] ++ hs ++ rest))
      with (1%Z, ["0"%char; x] ++ hs ++ rest).
    cbv beta iota. rewrite P. cbv beta iota. rewrite G.
    destruct hs; [reflexivity|]. cbn [option_map]. f_equal; try lia.
  - change (stripSign (["+"%char] ++ ["0"%char; x] ++ hs ++ rest))
      with (1%Z, ["0"%char; x] ++ hs ++ rest).
    cbv beta iota. rewrite P. cbv beta iota. rewrite G.
    destruct hs; [reflexivity|]. cbn [option_map]. f_equal; try lia.
  - change (stripSign (["-"%char] ++ ["0"%char; x] ++ hs ++ rest))
      with ((-1)%Z, ["0"%char; x] ++ hs ++ rest).
    cbv beta iota. rewrite P. cbv beta iota. rewrite G.
    destruct hs; [reflexivity|]. cbn [option_map]. f_equal; try lia.
Qed.

Lemma key_with_digit_not_default (l : chars) :
  existsb isDigit l = true -> String.eqb (toString l) "default" = false.
Proof.
  intros H. destruct (String.eqb_spec (toString l) "default") as [Q|_];
    [|reflexivity].
  exfalso. apply (f_equal ofString) in Q. rewrite ofString_toString in Q.
  rewrite Q in H. discriminate.
Qed.

(** C4, as the code has it: "default" is code 200.  Any other key is read
    by [parseInt] after optional white space and an optional sign.  Decimal
    digits there are read up to the first character that is not a digit,
    whatever follows them, unless they are a lone "0" followed by "x" or
    "X": then the hexadecimal digits after this prefix are read, and the key
    has no code when there is none.  The number read, when it is below 2^53,
    is the code.  A key other than "default" with no digit, or from which no
    integer can be read, has no code.  A descriptor comes from a key with a
    code, and every key with a positive code gives one. *)
Theorem getOperationResponseCode_keys :
  getOperationResponseCode "default" = Some 200%Z
  /\ (forall ws sign ds rest : chars,
        forallb isSpace ws = true ->
        sign = [] \/ sign = ["+"%char] \/ sign = ["-"%char] ->
        ds <> [] -> forallb isDigit ds = true -> endsNumber ds rest = true ->
        (decimalValue ds < 2 ^ 53)%Z ->
        getOperationResponseCode (toString (ws ++ sign ++ ds ++ rest))
        = Some (decimalValue ds))
  /\ (forall (ws sign hs rest : chars) (x : ascii),
        forallb isSpace ws = true ->
        sign = [] \/ sign = ["+"%char] \/ sign = ["-"%char] ->
        x = "x"%char \/ x = "X"%char ->
        forallb isHexDigit hs = true -> endsHex rest = true ->
        (hexValue hs < 2 ^ 53)%Z ->
        getOperationResponseCode
          (toString (ws ++ sign ++ ["0"%char; x] ++ hs ++ rest))
        = match hs with
          | [] => None
          | _ :: _ => Some (hexValue hs)
          end)
  /\ (forall key : string,
        key <> "default" -> hasDigit key = false \/ parseInt key = None ->
        getOperationResponseCode key = None)
  /\ (forall (openApi : Document) (responses : JsObject ResponseObject)
             (x : OperationResponse),
        In x (getOperationResponses openApi responses) ->
        exists (key : string) (r : ResponseObject) (c : Z),
          In (key, r) responses /\ getOperationResponseCode key = Some c
          /\ code x = c
          /\ x = getOperationResponse openApi (getRefResponse openApi r) c)
  /\ (forall (openApi : Document) (responses : JsObject ResponseObject)
             (key : string) (r : ResponseObject) (c : Z),
        In (key, r) responses -> getOperationResponseCode key = Some c ->
        (0 < c)%Z ->
        In (getOperationResponse openApi (getRefResponse openApi r) c)
           (getOperationResponses openApi responses)).
Proof.
  split; [reflexivity|]. split; [|split; [|split; [|split]]].
  - intros ws sign ds rest W S N D E _. unfold getOperationResponseCode.
    assert (H : existsb isDigit (ws ++ sign ++ ds ++ rest) = true).
    { rewrite !existsb_app. destruct ds as [|d ds]; [congruence|].
      cbn [forallb] in D. apply andb_true_iff in D. destruct D as [Dd _].
      cbn [existsb]. rewrite Dd. cbn. now rewrite !orb_true_r. }
    rewrite (key_with_digit_not_default _ H).
    rewrite ofString_toString, H, (parseInt_decimal ws rest W S N D E).
    assert (0 <= decimalValue ds)%Z
      by (apply decimalFrom_nonneg; [assumption|lia]).
    destruct S as [->|[->| ->]]; cbv beta iota; f_equal;
      [apply Z.abs_eq|apply Z.abs_eq|rewrite Z.abs_opp; apply Z.abs_eq];
      assumption.
  - intros ws sign hs rest x W S X D E _. unfold getOperationResponseCode.
    assert (H : existsb isDigit (ws ++ sign ++ ["0"%char; x] ++ hs ++ rest) = true).
    { rewrite !existsb_app. cbn [existsb]. change (isDigit "0") with true.
      cbn [orb]. now rewrite !orb_true_r. }
    rewrite (key_with_digit_not_default _ H).
    rewrite ofString_toString, H, (parseInt_hex ws hs rest W S X D E).
    destruct hs as [|h hs]; [reflexivity|].
    assert (0 <= hexValue (h :: hs))%Z
      by (apply hexFrom_nonneg; [assumption|lia]).
    destruct S as [->|[->| ->]]; cbv beta iota; f_equal;
      [apply Z.abs_eq|apply Z.abs_eq|rewrite Z.abs_opp; apply Z.abs_eq];
      assumption.
  - intros key N H. unfold getOperationResponseCode.
    destruct (String.eqb_spec key "default") as [Q|_]; [contradiction|].
    unfold hasDigit in H. destruct (existsb isDigit (ofString key)); [|reflexivity].
    destruct H as [H|H]; [discriminate|now rewrite H].
  - intros openApi responses x H. apply getOperationResponses_In in H.
    destruct H as (key & r & c & H & C & _ & ->). exists key, r, c.
    repeat split; try assumption.
    unfold getOperationResponse.
    destruct (resp_content _) as [content|];
      [destruct (getContent content) as [cnt|];
         [destruct (truthy _)|]|];
      try reflexivity;
      destruct (resp_headers _) as [[|[h ?] ?]|]; reflexivity.
  - intros openApi responses key r c H C P. apply getOperationResponses_In.
    exists key, r, c. repeat split; try assumption. lia.
Qed.

(** ** The identifier sanitizer *)

(** Facts on single characters are checked on the 256 of them. *)
Ltac by_chars c :=
  destruct c as [[] [] [] [] [] [] [] []]; vm_compute; reflexivity.

Lemma wordOrDash_not_space (c : ascii) :
  implb (isWordOrDash c) (negb (isSpace c)) = true.
Proof. by_chars c. Qed.

Lemma wordOrDash_toLower (c : ascii) :
  implb (isWordOrDash c) (isWordOrDash (toLower c)) = true.
Proof. by_chars c. Qed.

Lemma wordOrDash_not_separator (c : ascii) :
  implb (isWordOrDash c && negb (isSeparator c)) (isAlnum c && isWord c) = true.
Proof. by_chars c. Qed.

Lemma alnum_toUpper (c : ascii) : implb (isAlnum c) (isAlnum (toUpper c)) = true.
Proof. by_chars c. Qed.

Lemma letter_toLower (c : ascii) : implb (isLetter c) (isAlnum (toLower c)) = true.
Proof. by_chars c. Qed.

Lemma letter_wordOrDash (c : ascii) : implb (isLetter c) (isWordOrDash c) = true.
Proof. by_chars c. Qed.


Lemma implb_elim (a b : bool) : implb a b = true -> a = true -> b = true.
Proof. destruct a, b; simpl; congruence. Qed.

Lemma forallb_rev A (p : A -> bool) (l : list A) :
  forallb p (rev l) = forallb p l.
Proof.
  induction l as [|x r IH]; [reflexivity|]. simpl.
  rewrite forallb_app, IH. simpl. rewrite andb_true_r. apply andb_comm.
Qed.

Lemma forallb_impl A (p q : A -> bool) (l : list A) :
  (forall x, implb (p x) (q x) = true) ->
  forallb p l = true -> forallb q l = true.
Proof.
  intros H. induction l as [|x r IH]; [reflexivity|]. simpl.
  rewrite !andb_true_iff. intros [Hx Hr]. split; [|now apply IH].
  exact (@implb_elim _ _ (H x) Hx).
Qed.

Lemma dropWhile_none (p : ascii -> bool) (l : chars) :
  forallb (fun c => negb (p c)) l = true -> dropWhile p l = l.
Proof.
  destruct l as [|c r]; [reflexivity|]. simpl. intros H.
  apply andb_true_iff in H. destruct H as [H _]. apply negb_true_iff in H.
  now rewrite H.
Qed.

Lemma dropWhile_forallb (p q : ascii -> bool) (l : chars) :
  forallb q l = true -> forallb q (dropWhile p l) = true.
Proof.
  induction l as [|c r IH]; [reflexivity|]. intros H. simpl.
  destruct (p c); [|exact H]. simpl in H. apply andb_true_iff in H. now apply IH.
Qed.

Lemma dropWhile_head (p : ascii -> bool) (l : chars) :
  match dropWhile p l with [] => true | c :: _ => negb (p c) end = true.
Proof.
  induction l as [|c r IH]; [reflexivity|]. simpl.
  destruct (p c) eqn:E; [exact IH|]. now rewrite E.
Qed.

Lemma trim_no_space (l : chars) :
  forallb (fun c => negb (isSpace c)) l = true -> trim l = l.
Proof.
  intros H. unfold trim, trimStart. rewrite (dropWhile_none isSpace l H).
  rewrite dropWhile_none by now rewrite forallb_rev. apply rev_involutive.
Qed.

Lemma trim_wordOrDash (l : chars) : forallb isWordOrDash l = true -> trim l = l.
Proof.
  intros H. apply trim_no_space.
  exact (@forallb_impl _ _ _ l wordOrDash_not_space H).
Qed.

Lemma insertBeforeLast_wordOrDash (out : chars) :
  forallb isWordOrDash out = true ->
  forallb isWordOrDash (insertBeforeLast out) = true.
Proof.
  destruct out as [|c r]; [reflexivity|]. simpl. rewrite !andb_true_iff.
  intros [H1 H2]. repeat split; assumption.
Qed.

Lemma preserveCamelCaseLoop_wordOrDash (rest out : chars) (a b c : bool) :
  forallb isWordOrDash rest = true -> forallb isWordOrDash out = true ->
  forallb isWordOrDash (preserveCamelCaseLoop rest out a b c) = true.
Proof.
  revert out a b c. induction rest as [|x rest IH]; intros out a b c R O.
  - simpl. now rewrite forallb_rev.
  - cbn [forallb] in R. apply andb_true_iff in R. destruct R as [Rx R].
    cbn [preserveCamelCaseLoop].
    destruct (a && isLetter x && Ascii.eqb (toUpper x) x).
    + apply IH; [assumption|]. cbn [forallb]. rewrite Rx, O. reflexivity.
    + destruct (b && c && isLetter x && Ascii.eqb (toLower x) x).
      * apply IH; [assumption|]. cbn [forallb].
        rewrite Rx, insertBeforeLast_wordOrDash by assumption. reflexivity.
      * apply IH; [assumption|]. cbn [forallb]. now rewrite Rx, O.
Qed.

Lemma replaceAfterDigits_alnum (l : chars) (afterDigit : bool) :
  forallb isAlnum l = true ->
  forallb isAlnum (replaceAfterDigits afterDigit l) = true.
Proof.
  revert afterDigit. induction l as [|c r IH]; intros afterDigit H; [reflexivity|].
  cbn [forallb] in H. apply andb_true_iff in H. destruct H as [Hc H].
  cbn [replaceAfterDigits].
  destruct (isDigit c); [|destruct (afterDigit && isWord c)];
    cbn [forallb]; rewrite ?Hc, ?(@implb_elim _ _ (alnum_toUpper c) Hc), IH;
    auto.
Qed.

Lemma replaceSeparators_alnum (l run : chars) :
  forallb isWordOrDash l = true ->
  forallb isAlnum (replaceSeparators run l) = true.
Proof.
  revert run. induction l as [|c r IH]; intros run H; [reflexivity|].
  cbn [forallb] in H. apply andb_true_iff in H. destruct H as [Hc H].
  cbn [replaceSeparators]. destruct (isSeparator c) eqn:S; [now apply IH|].
  assert (A : isAlnum c && isWord c = true).
  { apply (@implb_elim _ _ (wordOrDash_not_separator c)). now rewrite Hc, S. }
  apply andb_true_iff in A. destruct A as [A Wd].
  destruct run as [|s run].
  - cbn [forallb]. now rewrite A, IH.
  - rewrite Wd. cbn [forallb].
    now rewrite (@implb_elim _ _ (alnum_toUpper c) A), IH.
Qed.

Lemma map_toLower_wordOrDash (l : chars) :
  forallb isWordOrDash l = true -> forallb isWordOrDash (map toLower l) = true.
Proof.
  induction l as [|c r IH]; [reflexivity|]. simpl. rewrite !andb_true_iff.
  intros [Hc H]. split; [|now apply IH].
  exact (@implb_elim _ _ (wordOrDash_toLower c) Hc).
Qed.

(** Camel-casing a text of letters, digits, underscores and dashes leaves
    letters and digits only, unless the text is one separator alone. *)
Lemma camelCaseChars_alnum (l : chars) :
  forallb isWordOrDash l = true ->
  (forall c, l = [c] -> isLetter c = true) ->
  forallb isAlnum (camelCaseChars l) = true.
Proof.
  intros H One. unfold camelCaseChars. rewrite (trim_wordOrDash l H).
  destruct l as [|c [|c' l']]; [reflexivity| |].
  - cbn [forallb]. rewrite andb_true_r.
    apply (@implb_elim _ _ (letter_toLower c)). now apply One.
  - apply replaceAfterDigits_alnum, replaceSeparators_alnum.
    apply map_toLower_wordOrDash, dropWhile_forallb.
    destruct (existsb isUpper (c :: c' :: l')); [|exact H].
    now apply preserveCamelCaseLoop_wordOrDash.
Qed.

Lemma replaceNonWord_wordOrDash (l : chars) (inRun : bool) :
  forallb isWordOrDash (replaceNonWord inRun l) = true.
Proof.
  revert inRun. induction l as [|c r IH]; intros inRun; [reflexivity|].
  cbn [replaceNonWord]. destruct (isWordOrDash c) eqn:E.
  - cbn [forallb]. now rewrite E, IH.
  - destruct inRun; [apply IH|]. cbn [forallb]. now rewrite IH.
Qed.

Lemma cleanChars_eq (l : chars) :
  cleanChars l = replaceNonWord false (stripLeadingNonLetters l).
Proof. apply trim_wordOrDash, replaceNonWord_wordOrDash. Qed.

Lemma cleanChars_wordOrDash (l : chars) : forallb isWordOrDash (cleanChars l) = true.
Proof. rewrite cleanChars_eq. apply replaceNonWord_wordOrDash. Qed.

Lemma cleanChars_single (l : chars) (c : ascii) :
  cleanChars l = [c] -> isLetter c = true.
Proof.
  rewrite cleanChars_eq. unfold stripLeadingNonLetters.
  pose proof (dropWhile_head (fun c => negb (isLetter c)) l) as H.
  destruct (dropWhile _ l) as [|c0 r]; [discriminate|].
  apply negb_true_iff, negb_false_iff in H. cbn [replaceNonWord].
  rewrite (@implb_elim _ _ (letter_wordOrDash c0) H). congruence.
Qed.

(** The cleaned and camel-cased text has letters and digits only. *)
Lemma camelCase_clean_alnum (value : string) :
  forallb isAlnum (ofString (camelCase (clean value))) = true.
Proof.
  unfold camelCase, clean. rewrite !ofString_toString.
  apply camelCaseChars_alnum; [apply cleanChars_wordOrDash|apply cleanChars_single].
Qed.


Lemma getOperationParameterName_not_api_version (value : string) :
  getOperationParameterName value <> "api-version".
Proof.
  unfold getOperationParameterName, replaceReservedWords.
  pose proof (camelCase_clean_alnum value) as H.
  destruct (includes reservedWords _).
  - destruct (camelCase (clean value)); discriminate.
  - intros E. rewrite E in H. discriminate.
Qed.


(** ** The claim on the parameters of an operation *)

Lemma getOperationParameter_names (openApi : Document) (parameter : ParameterObject) :
  prop (getOperationParameter openApi parameter) = par_name parameter
  /\ name (getOperationParameter openApi parameter)
     = getOperationParameterName (par_name parameter).
Proof.
  unfold getOperationParameter. destruct (truthy (par_ref parameter)); [now split|].
  destruct (par_schema parameter) as [schema|]; [|now split].
  match goal with
  | |- context [match s_ref ?x with Some _ => _ | None => _ end] =>
      destruct (s_ref x)
  end; now split.
Qed.

Lemma classifyParameter_notApiVersion (o : OperationParameters)
    (parameter : OperationParameter) :
  name parameter <> "api-version" ->
  Forall notApiVersion (ps_parameters o) ->
  Forall notApiVersion (ps_parameters (classifyParameter o parameter)).
Proof.
  intros Hn H. unfold classifyParameter.
  destruct (String.eqb_spec (prop parameter) "api-version") as [|Hp]; [exact H|].
  assert (Push : Forall notApiVersion (ps_parameters o ++ [parameter])).
  { apply Forall_app. split; [exact H|].
    constructor; [split; assumption|constructor]. }
  cbn [negb].
  repeat match goal with
         | |- context [if String.eqb ?a ?b then _ else _] =>
             destruct (String.eqb a b)
         end;
    first [exact H | exact Push].
Qed.

Lemma getOperationParameters_notApiVersion (doc : Document)
    (parameters : list ParameterObject) :
  Forall notApiVersion (ps_parameters (getOperationParameters doc parameters)).
Proof.
  unfold getOperationParameters.
  assert (G : forall acc, Forall notApiVersion (ps_parameters acc) ->
    Forall notApiVersion
      (ps_parameters
         (fold_left
            (fun operationParameters parameterOrReference =>
               classifyParameter operationParameters
                 (getOperationParameter doc (getRefParameter doc parameterOrReference)))
            parameters acc))).
  { induction parameters as [|x r IH]; intros acc H; [exact H|].
    cbn [fold_left]. apply IH, classifyParameter_notApiVersion; [|exact H].
    rewrite (proj2 (getOperationParameter_names doc _)).
    apply getOperationParameterName_not_api_version. }
  apply G. constructor.
Qed.

Lemma getOperationRequestBody_notApiVersion (openApi : Document)
    (body : RequestBodyObject) :
  notApiVersion (getOperationRequestBody openApi body).
Proof.
  unfold getOperationRequestBody, notApiVersion.
  destruct (rb_content body) as [content|]; [|split; discriminate].
  destruct (getContent content) as [c|]; [|split; discriminate].
  destruct (truthy (s_ref (c_schema c)));
    destruct (_ || _); split; discriminate.
Qed.

Lemma filter_partition_permutation A (f : A -> bool) (l : list A) :
  Permutation l (filter f l ++ filter (fun x => negb (f x)) l).
Proof.
  induction l as [|x r IH]; [constructor|]. simpl. destruct (f x); simpl.
  - now constructor.
  - now apply Permutation_cons_app.
Qed.

Lemma partition_order A (f : A -> bool) (l1 l2 before after : list A) (p q : A) :
  forallb f l1 = true -> forallb (fun x => negb (f x)) l2 = true ->
  l1 ++ l2 = before ++ p :: after -> In q after -> f q = true -> f p = true.
Proof.
  revert before. induction l1 as [|a l1 IH]; intros before H1 H2 E Hq Fq.
  - exfalso. simpl in E. assert (In q l2)
      by (rewrite E; apply in_or_app; right; now right).
    rewrite forallb_forall in H2. specialize (H2 q H). now rewrite Fq in H2.
  - cbn [forallb] in H1. apply andb_true_iff in H1. destruct H1 as [Ha H1].
    destruct before as [|b before]; simpl in E; injection E as -> E; [exact Ha|].
    now apply (IH before).
Qed.

Lemma forallb_filter_id A (f : A -> bool) (l : list A) :
  forallb f (filter f l) = true.
Proof.
  induction l as [|x r IH]; [reflexivity|]. simpl.
  destruct (f x) eqn:E; [simpl; now rewrite E|exact IH].
Qed.

(** C2: the parameters of an operation are the parameters inherited from
    the path, then its own, then the body parameter when there is a request
    body, sorted so that those that are required and have no default come
    first, the order being kept within each of the two classes; none of them
    has the property name or the name "api-version". *)
Theorem parameters_required_first (doc : Document) (url method : string)
    (op : OperationObject) (pathItemParameters : list ParameterObject) :
  let pathParams := getOperationParameters doc pathItemParameters in
  let declared :=
    ps_parameters pathParams
    ++ match oo_parameters op with
       | Some ps => ps_parameters (getOperationParameters doc ps)
       | None => []
       end
    ++ match oo_requestBody op with
       | Some body => [getOperationRequestBody doc (getRefRequestBody doc body)]
       | None => []
       end in
  let parameters := op_parameters (getOperation doc url method op pathParams) in
  parameters
  = filter needsValue declared ++ filter (fun p => negb (needsValue p)) declared
  /\ Permutation declared parameters
  /\ (forall (before after : list OperationParameter) (p q : OperationParameter),
        parameters = before ++ p :: after -> In q after ->
        needsValue q = true -> needsValue p = true)
  /\ Forall (fun p : OperationParameter =>
               prop p <> "api-version" /\ name p <> "api-version") parameters.
Proof.
  intros pathParams declared parameters.
  assert (E : parameters
    = filter needsValue declared ++ filter (fun p => negb (needsValue p)) declared).
  { subst parameters. unfold getOperation. cbn [op_parameters].
    rewrite (sort_partition needsValue sortByRequired sortByRequired_pos).
    subst declared. destruct (oo_parameters op), (oo_requestBody op);
      rewrite <- !app_assoc; reflexivity. }
  assert (P : Permutation declared parameters)
    by (rewrite E; apply filter_partition_permutation).
  split; [exact E|]. split; [exact P|]. split.
  - intros before after p q B Hq Nq. rewrite E in B.
    apply (partition_order needsValue _ _ before after p q
             (forallb_filter_id needsValue declared)
             (forallb_filter_id (fun x => negb (needsValue x)) declared) B Hq Nq).
  - apply Forall_forall. intros p Hp.
    apply (Permutation_in _ (Permutation_sym P)) in Hp.
    subst declared. apply in_app_or in Hp. destruct Hp as [Hp|Hp].
    + exact (proj1 (Forall_forall _ _)
               (getOperationParameters_notApiVersion doc pathItemParameters) p Hp).
    + apply in_app_or in Hp. destruct Hp as [Hp|Hp].
      * destruct (oo_parameters op) as [ps|]; [|destruct Hp].
        exact (proj1 (Forall_forall _ _)
                 (getOperationParameters_notApiVersion doc ps) p Hp).
      * destruct (oo_requestBody op) as [body|]; [|destruct Hp].
        destruct Hp as [<-|[]]. apply getOperationRequestBody_notApiVersion.
Qed.

(** * Further properties of the code *)

(** ** Structural equality and deduplication *)

Lemma eqOptString_sym (a b : option string) : eqOptString a b = eqOptString b a.
Proof. destruct a, b; simpl; try reflexivity. apply String.eqb_sym. Qed.

Lemma areEqual_sym : forall a b : Model, areEqual a b = areEqual b a.
Proof.
  fix IH 1. intros a b.
  destruct a as [n e t b0 tp l d dp df i1 i2 i3 i4 k im en ens ps].
  destruct b as [n' e' t' b0' tp' l' d' dp' df' i1' i2' i3' i4' k' im' en' ens' ps'].
  destruct l as [l|], l' as [l'|]; cbn;
    rewrite (String.eqb_sym t t'), (String.eqb_sym b0 b0'), (eqOptString_sym tp tp');
    try reflexivity.
  rewrite (IH l l'). reflexivity.
Qed.

(** X2: [areEqual] is reflexive and symmetric. *)
Theorem areEqual_reflexive_symmetric :
  (forall a : Model, areEqual a a = true)
  /\ (forall a b : Model, areEqual a b = areEqual b a).
Proof. split; [apply areEqual_refl|apply areEqual_sym]. Qed.

Lemma existsb_app_false A (p : A -> bool) (l1 l2 : list A) :
  existsb p (l1 ++ l2) = false <-> existsb p l1 = false /\ existsb p l2 = false.
Proof. rewrite existsb_app. apply orb_false_iff. Qed.

Lemma keepFirstFrom_distinct (l seen pre post : list OperationResponse)
    (x : OperationResponse) :
  keepFirstFrom seen l = pre ++ x :: post ->
  existsb (fun item : OperationResponse => areEqual item x) (seen ++ pre) = false.
Proof.
  revert seen pre. induction l as [|z r IH]; intros seen pre E.
  - destruct pre; discriminate E.
  - cbn [keepFirstFrom] in E.
    destruct (existsb (fun item : OperationResponse => areEqual item z) seen) eqn:Z.
    + specialize (IH _ _ E). rewrite <- app_assoc in IH.
      apply existsb_app_false in IH. destruct IH as [I1 I2].
      apply existsb_app_false in I2. apply existsb_app_false. tauto.
    + destruct pre as [|p pre]; cbn [app] in E; injection E as <- E.
      * now rewrite app_nil_r.
      * specialize (IH _ _ E). now rewrite <- app_assoc in IH.
Qed.

(** X3: no result compares equal to a result that stands before it. *)
Theorem getOperationResults_pairwise_distinct
    (operationResponses pre post : list OperationResponse) (x y : OperationResponse) :
  getOperationResults operationResponses = pre ++ x :: post ->
  In y pre ->
  areEqual y x = false /\ areEqual x y = false.
Proof.
  intros E Hy. rewrite getOperationResults_keepFirst in E.
  apply keepFirstFrom_distinct in E. cbn [app] in E.
  assert (F : areEqual y x = false).
  { destruct (areEqual y x) eqn:Q; [|reflexivity].
    rewrite <- E. symmetry. apply existsb_exists. exists y. now split. }
  split; [exact F|]. now rewrite areEqual_sym.
Qed.

Lemma existsb_subset A (p : A -> bool) (l1 l2 : list A) :
  (forall y, In y l1 -> In y l2) -> existsb p l2 = false -> existsb p l1 = false.
Proof.
  intros S H. destruct (existsb p l1) eqn:E; [|reflexivity].
  apply existsb_exists in E. destruct E as (y & Hy & Py).
  rewrite <- H. symmetry. apply existsb_exists. exists y. split; [now apply S|exact Py].
Qed.

Lemma keepFirstFrom_again (l seen seen' : list OperationResponse) :
  (forall y, In y seen' -> In y seen) ->
  keepFirstFrom seen' (keepFirstFrom seen l) = keepFirstFrom seen l.
Proof.
  revert seen seen'. induction l as [|x r IH]; intros seen seen' S; [reflexivity|].
  cbn [keepFirstFrom].
  destruct (existsb (fun item : OperationResponse => areEqual item x) seen) eqn:Z.
  - apply IH. intros y Hy. apply in_or_app. left. now apply S.
  - cbn [keepFirstFrom]. rewrite (existsb_subset _ seen' seen S Z). f_equal.
    apply IH. intros y Hy. apply in_app_or in Hy. apply in_or_app.
    destruct Hy as [Hy|Hy]; [left; now apply S|now right].
Qed.

Lemma filter_all A (f : A -> bool) (l : list A) :
  (forall x, In x l -> f x = true) -> filter f l = l.
Proof.
  induction l as [|x r IH]; intros H; [reflexivity|]. simpl.
  rewrite (H x) by now left. f_equal. apply IH. intros y Hy. apply H. now right.
Qed.

Lemma getOperationResults_isSuccess (operationResponses : list OperationResponse)
    (x : OperationResponse) :
  In x (getOperationResults operationResponses) -> isSuccess x = true.
Proof.
  rewrite getOperationResults_keepFirst. intros H. apply keepFirstFrom_In in H.
  unfold candidates in H.
  destruct (filter isSuccess operationResponses) as [|z r] eqn:F.
  - destruct H as [<-|[]]. reflexivity.
  - rewrite <- F in H. apply filter_In in H. tauto.
Qed.

(** X4: extracting the results of a list of results changes nothing. *)
Theorem getOperationResults_idempotent (operationResponses : list OperationResponse) :
  getOperationResults (getOperationResults operationResponses)
  = getOperationResults operationResponses.
Proof.
  rewrite (getOperationResults_keepFirst (getOperationResults operationResponses)).
  unfold candidates.
  rewrite (filter_all isSuccess (getOperationResults operationResponses)
             (getOperationResults_isSuccess operationResponses)).
  pose proof (getOperationResults_nonempty operationResponses) as N.
  destruct (getOperationResults operationResponses) as [|z r] eqn:R; [congruence|].
  rewrite <- R, getOperationResults_keepFirst. unfold keepFirst.
  apply keepFirstFrom_again. tauto.
Qed.

(** ** Order of the classified responses *)

Lemma getOperationResponses_sort (openApi : Document)
    (responses : JsObject ResponseObject) :
  getOperationResponses openApi responses
  = sort compareCode (collectResponses openApi responses).
Proof. reflexivity. Qed.

Lemma compareCode_pos (a b : OperationResponse) :
  (0 <? compareCode a b)%Z = (code b <? code a)%Z.
Proof.
  unfold compareCode. destruct (Z.ltb_spec (code a) (code b)) as [H|H].
  - cbn. symmetry. apply Z.ltb_ge. lia.
  - destruct (Z.ltb_spec (code b) (code a)); reflexivity.
Qed.

Lemma insert_compareCode_sorted (x : OperationResponse) (l : list OperationResponse) :
  StronglySorted codeLe l -> StronglySorted codeLe (insert compareCode x l).
Proof.
  intros S. induction S as [|y r S IH F]; cbn [insert].
  - repeat constructor.
  - rewrite compareCode_pos. destruct (Z.ltb_spec (code y) (code x)) as [H|H].
    + constructor; [exact IH|]. apply Forall_forall. intros z Hz.
      apply insert_In in Hz. destruct Hz as [->|Hz].
      * unfold codeLe. lia.
      * exact (proj1 (Forall_forall _ _) F z Hz).
    + constructor; [now constructor|]. constructor; [exact H|].
      apply Forall_forall. intros z Hz.
      pose proof (proj1 (Forall_forall _ _) F z Hz) as Q. unfold codeLe in *. lia.
Qed.

Lemma sort_compareCode_sorted (l : list OperationResponse) :
  StronglySorted codeLe (sort compareCode l).
Proof.
  induction l as [|x r IH]; [constructor|].
  change (sort compareCode (x :: r)) with (insert compareCode x (sort compareCode r)).
  now apply insert_compareCode_sorted.
Qed.

Lemma insert_compareCode_filter (c : Z) (x : OperationResponse)
    (l : list OperationResponse) :
  filter (fun r : OperationResponse => (code r =? c)%Z) (insert compareCode x l)
  = filter (fun r : OperationResponse => (code r =? c)%Z) (x :: l).
Proof.
  induction l as [|y r IH]; [reflexivity|]. cbn [insert].
  rewrite compareCode_pos. destruct (Z.ltb_spec (code y) (code x)) as [H|H];
    [|reflexivity].
  cbn [filter] in *. rewrite IH.
  destruct (Z.eqb_spec (code x) c), (Z.eqb_spec (code y) c); try reflexivity. lia.
Qed.

Lemma sort_compareCode_filter (c : Z) (l : list OperationResponse) :
  filter (fun r : OperationResponse => (code r =? c)%Z) (sort compareCode l)
  = filter (fun r : OperationResponse => (code r =? c)%Z) l.
Proof.
  induction l as [|x r IH]; [reflexivity|].
  change (sort compareCode (x :: r)) with (insert compareCode x (sort compareCode r)).
  rewrite insert_compareCode_filter. cbn [filter]. now rewrite IH.
Qed.

Lemma getOperationResponse_code (openApi : Document) (response : ResponseObject)
    (responseCode : Z) :
  code (getOperationResponse openApi response responseCode) = responseCode.
Proof.
  unfold getOperationResponse.
  destruct (resp_content _) as [content|];
    [destruct (getContent content) as [cnt|];
       [destruct (truthy _)|]|];
    try reflexivity;
    destruct (resp_headers _) as [[|[h ?] ?]|]; reflexivity.
Qed.

Lemma getOperationResponseCode_nonneg (value : string) (c : Z) :
  getOperationResponseCode value = Some c -> (0 <= c)%Z.
Proof.
  unfold getOperationResponseCode. destruct (String.eqb value "default").
  - intros E. injection E as <-. lia.
  - destruct (existsb isDigit (ofString value)); [|discriminate].
    destruct (parseInt value); [|discriminate]. intros E. injection E as <-.
    apply Z.abs_nonneg.
Qed.

(** X1: the classified responses are in ascending order of their codes,
    responses of one code are in the order of their keys, and every code is
    positive. *)
Theorem getOperationResponses_sorted (openApi : Document)
    (responses : JsObject ResponseObject) :
  StronglySorted codeLe (getOperationResponses openApi responses)
  /\ (forall c : Z,
        filter (fun r : OperationResponse => (code r =? c)%Z)
               (getOperationResponses openApi responses)
        = filter (fun r : OperationResponse => (code r =? c)%Z)
                 (collectResponses openApi responses))
  /\ Forall (fun r : OperationResponse => (0 < code r)%Z)
            (getOperationResponses openApi responses).
Proof.
  rewrite getOperationResponses_sort. split; [apply sort_compareCode_sorted|].
  split; [intros c; apply sort_compareCode_filter|].
  apply Forall_forall. intros x H.
  rewrite <- getOperationResponses_sort in H. apply getOperationResponses_In in H.
  destruct H as (key & r & c & _ & C & N & ->). rewrite getOperationResponse_code.
  pose proof (getOperationResponseCode_nonneg key C). lia.
Qed.

(** ** Buckets of parameters *)

Lemma classifyParameter_fields (o : OperationParameters) (p : OperationParameter) :
  let o' := classifyParameter o p in
  ps_parameters o' = ps_parameters o ++ (if isBucketed p then [p] else [])
  /\ ps_parametersPath o'
     = ps_parametersPath o ++ (if hasLocation "path" p then [p] else [])
  /\ ps_parametersQuery o'
     = ps_parametersQuery o ++ (if hasLocation "query" p then [p] else [])
  /\ ps_parametersForm o'
     = ps_parametersForm o ++ (if hasLocation "formData" p then [p] else [])
  /\ ps_parametersCookie o'
     = ps_parametersCookie o ++ (if hasLocation "cookie" p then [p] else [])
  /\ ps_parametersHeader o'
     = ps_parametersHeader o ++ (if hasLocation "header" p then [p] else [])
  /\ ps_imports o' = ps_imports o ++ (if isBucketed p then imports p else [])
  /\ ps_parametersBody o' = ps_parametersBody o.
Proof.
  unfold classifyParameter, isBucketed, hasLocation, includes, locations.
  cbn [existsb].
  destruct (String.eqb (prop p) "api-version"); cbn [negb andb];
    [rewrite !app_nil_r; repeat split|].
  destruct (String.eqb_spec (p_in p) "path") as [E|_];
    [try rewrite E; cbn; rewrite ?app_nil_r; repeat split|].
  destruct (String.eqb_spec (p_in p) "query") as [E|_];
    [try rewrite E; cbn; rewrite ?app_nil_r; repeat split|].
  destruct (String.eqb_spec (p_in p) "formData") as [E|_];
    [try rewrite E; cbn; rewrite ?app_nil_r; repeat split|].
  destruct (String.eqb_spec (p_in p) "cookie") as [E|_];
    [try rewrite E; cbn; rewrite ?app_nil_r; repeat split|].
  destruct (String.eqb_spec (p_in p) "header") as [E|_];
    [try rewrite E; cbn; rewrite ?app_nil_r; repeat split|].
  cbn. rewrite ?app_nil_r. repeat split.
Qed.

Lemma filter_cons_if A (f : A -> bool) (x : A) (l : list A) :
  filter f (x :: l) = (if f x then [x] else []) ++ filter f l.
Proof. simpl. destruct (f x); reflexivity. Qed.

Lemma classify_fold (doc : Document) (parameters : list ParameterObject)
    (acc : OperationParameters) :
  let o :=
    fold_left
      (fun operationParameters parameterOrReference =>
         classifyParameter operationParameters
           (getOperationParameter doc (getRefParameter doc parameterOrReference)))
      parameters acc in
  let built := builtParameters doc parameters in
  ps_parameters o = ps_parameters acc ++ filter isBucketed built
  /\ ps_parametersPath o = ps_parametersPath acc ++ filter (hasLocation "path") built
  /\ ps_parametersQuery o = ps_parametersQuery acc ++ filter (hasLocation "query") built
  /\ ps_parametersForm o = ps_parametersForm acc ++ filter (hasLocation "formData") built
  /\ ps_parametersCookie o
     = ps_parametersCookie acc ++ filter (hasLocation "cookie") built
  /\ ps_parametersHeader o
     = ps_parametersHeader acc ++ filter (hasLocation "header") built
  /\ ps_imports o
     = ps_imports acc
       ++ flat_map (fun p : OperationParameter => imports p) (filter isBucketed built)
  /\ ps_parametersBody o = ps_parametersBody acc.
Proof.
  revert acc. induction parameters as [|x r IH]; intros acc.
  - cbn. rewrite !app_nil_r. repeat split.
  - cbn [fold_left builtParameters map].
    set (p := getOperationParameter doc (getRefParameter doc x)).
    specialize (IH (classifyParameter acc p)). cbv zeta in IH.
    fold (builtParameters doc r).
    destruct IH as (I1 & I2 & I3 & I4 & I5 & I6 & I7 & I8).
    destruct (classifyParameter_fields acc p) as (C1 & C2 & C3 & C4 & C5 & C6 & C7 & C8).
    cbv zeta. rewrite I1, I2, I3, I4, I5, I6, I7, I8.
    rewrite C1, C2, C3, C4, C5, C6, C7, C8.
    rewrite !filter_cons_if, <- !app_assoc.
    repeat split.
    destruct (isBucketed p); reflexivity.
Qed.

Lemma filter_filter A (f g : A -> bool) (l : list A) :
  filter f (filter g l) = filter (fun x => g x && f x) l.
Proof.
  induction l as [|x r IH]; [reflexivity|]. simpl.
  destruct (g x); simpl; [destruct (f x); now rewrite IH|exact IH].
Qed.

Lemma filter_same A (f g : A -> bool) (l : list A) :
  (forall x, f x = g x) -> filter f l = filter g l.
Proof.
  intros H. induction l as [|x r IH]; [reflexivity|]. simpl. now rewrite H, IH.
Qed.

Lemma isBucketed_location (location : string) (p : OperationParameter) :
  In location locations ->
  isBucketed p && String.eqb (p_in p) location = hasLocation location p.
Proof.
  intros H. unfold isBucketed, hasLocation, includes.
  destruct (String.eqb_spec (p_in p) location) as [E|_];
    [|now rewrite !andb_false_r].
  rewrite !andb_true_r, E.
  replace (existsb (String.eqb location) locations) with true; [now rewrite andb_true_r|].
  symmetry. apply existsb_exists. exists location. split; [exact H|apply String.eqb_refl].
Qed.

(** X5: each bucket of [getOperationParameters] holds the parameters of the
    flat list that have its location, in their order; the flat list holds the
    built parameters with one of the five locations and a property name other
    than "api-version", in the order of the declaration; the imports are
    those of the flat list; there is no body parameter. *)
Theorem getOperationParameters_buckets (doc : Document)
    (parameters : list ParameterObject) :
  let o := getOperationParameters doc parameters in
  let at_ (location : string) :=
    filter (fun p : OperationParameter => String.eqb (p_in p) location)
           (ps_parameters o) in
  ps_parameters o = filter isBucketed (builtParameters doc parameters)
  /\ ps_parametersPath o = at_ "path"
  /\ ps_parametersQuery o = at_ "query"
  /\ ps_parametersForm o = at_ "formData"
  /\ ps_parametersCookie o = at_ "cookie"
  /\ ps_parametersHeader o = at_ "header"
  /\ ps_imports o
     = flat_map (fun p : OperationParameter => imports p) (ps_parameters o)
  /\ ps_parametersBody o = None.
Proof.
  intros o at_.
  destruct (classify_fold doc parameters noParameters)
    as (I1 & I2 & I3 & I4 & I5 & I6 & I7 & I8).
  fold (getOperationParameters doc parameters) in I1, I2, I3, I4, I5, I6, I7, I8.
  fold o in I1, I2, I3, I4, I5, I6, I7, I8. cbn [noParameters ps_parameters
    ps_parametersPath ps_parametersQuery ps_parametersForm ps_parametersCookie
    ps_parametersHeader ps_imports ps_parametersBody app] in *.
  assert (B : forall location, In location locations ->
    at_ location = filter (hasLocation location) (builtParameters doc parameters)).
  { intros location H. unfold at_. rewrite I1, filter_filter.
    apply filter_same. intros p. now apply isBucketed_location. }
  split; [exact I1|].
  rewrite I2, I3, I4, I5, I6, I7, I8, I1, !B by (unfold locations; simpl; tauto).
  repeat split.
Qed.

Lemma perm_buckets (l : list OperationParameter) :
  Permutation (filter isBucketed l)
    (filter (hasLocation "path") l ++ filter (hasLocation "query") l
     ++ filter (hasLocation "formData") l ++ filter (hasLocation "cookie") l
     ++ filter (hasLocation "header") l).
Proof.
  induction l as [|p l IH]; [constructor|].
  rewrite !filter_cons_if.
  unfold isBucketed at 1, hasLocation at 1 3 5 7 9, includes, locations.
  cbn [existsb].
  destruct (String.eqb (prop p) "api-version"); cbn [negb andb app]; [exact IH|].
  destruct (String.eqb_spec (p_in p) "path") as [E|_].
  { try rewrite E. cbn. now constructor. }
  destruct (String.eqb_spec (p_in p) "query") as [E|_].
  { try rewrite E. cbn. now apply Permutation_cons_app. }
  destruct (String.eqb_spec (p_in p) "formData") as [E|_].
  { try rewrite E. cbn. rewrite app_assoc. apply Permutation_cons_app.
    now rewrite <- app_assoc. }
  destruct (String.eqb_spec (p_in p) "cookie") as [E|_].
  { try rewrite E. cbn. rewrite 2!app_assoc. apply Permutation_cons_app.
    now rewrite <- 2!app_assoc. }
  destruct (String.eqb_spec (p_in p) "header") as [E|_].
  { cbn. rewrite 3!app_assoc. apply Permutation_cons_app.
    now rewrite <- 3!app_assoc. }
  exact IH.
Qed.

Lemma perm_interleave A (a1 a2 r1 r2 x : list A) :
  Permutation (r1 ++ r2) x ->
  Permutation ((a1 ++ r1) ++ (a2 ++ r2)) ((a1 ++ a2) ++ x).
Proof.
  intros H. rewrite <- (app_assoc a1 r1), <- (app_assoc a1 a2).
  apply Permutation_app_head.
  transitivity (a2 ++ r1 ++ r2); [|now apply Permutation_app_head].
  rewrite 2!app_assoc. apply Permutation_app_tail, Permutation_app_comm.
Qed.

Lemma perm_zip5 A (a1 b1 c1 d1 e1 a2 b2 c2 d2 e2 t : list A) :
  Permutation
    ((a1 ++ b1 ++ c1 ++ d1 ++ e1) ++ (a2 ++ b2 ++ c2 ++ d2 ++ e2) ++ t)
    ((a1 ++ a2) ++ (b1 ++ b2) ++ (c1 ++ c2) ++ (d1 ++ d2) ++ (e1 ++ e2) ++ t).
Proof.
  rewrite <- !(app_assoc _ _ t).
  apply perm_interleave, perm_interleave, perm_interleave, perm_interleave.
  reflexivity.
Qed.

Lemma sort_permutation A (compare : A -> A -> Z) (l : list A) :
  Permutation (sort compare l) l.
Proof.
  induction l as [|x r IH]; [constructor|].
  change (sort compare (x :: r)) with (insert compare x (sort compare r)).
  transitivity (x :: sort compare r); [|now constructor].
  generalize (sort compare r). intros s. induction s as [|y s IHs]; simpl.
  - reflexivity.
  - destruct (0 <? compare x y)%Z; [|reflexivity].
    rewrite IHs. apply perm_swap.
Qed.

Lemma getOperationParameters_permutation (doc : Document)
    (parameters : list ParameterObject) :
  let o := getOperationParameters doc parameters in
  Permutation (ps_parameters o)
    (ps_parametersPath o ++ ps_parametersQuery o ++ ps_parametersForm o
     ++ ps_parametersCookie o ++ ps_parametersHeader o)
  /\ ps_parametersBody o = None.
Proof.
  intros o.
  destruct (classify_fold doc parameters noParameters)
    as (I1 & I2 & I3 & I4 & I5 & I6 & _ & I8).
  fold (getOperationParameters doc parameters) in I1, I2, I3, I4, I5, I6, I8.
  fold o in I1, I2, I3, I4, I5, I6, I8.
  rewrite I1, I2, I3, I4, I5, I6, I8. split; [apply perm_buckets|reflexivity].
Qed.

(** X6: the flat list of parameters of an operation is a rearrangement of
    its five buckets and of its body parameter, which is the one built from
    the request body and is absent without a request body. *)
Theorem getOperation_parameters_of_buckets (doc : Document) (url method : string)
    (op : OperationObject) (pathItemParameters : list ParameterObject) :
  let operation :=
    getOperation doc url method op (getOperationParameters doc pathItemParameters) in
  Permutation (op_parameters operation)
    (op_parametersPath operation ++ op_parametersQuery operation
     ++ op_parametersForm operation ++ op_parametersCookie operation
     ++ op_parametersHeader operation
     ++ match op_parametersBody operation with Some b => [b] | None => [] end)
  /\ op_parametersBody operation
     = match oo_requestBody op with
       | Some body => Some (getOperationRequestBody doc (getRefRequestBody doc body))
       | None => None
       end.
Proof.
  intros operation. subst operation.
  destruct (getOperationParameters_permutation doc pathItemParameters) as [P1 B1].
  cbv zeta in P1, B1. unfold getOperation.
  cbn [op_parameters op_parametersPath op_parametersQuery op_parametersForm
       op_parametersCookie op_parametersHeader op_parametersBody].
  destruct (oo_requestBody op) as [body|]; destruct (oo_parameters op) as [ps|].
  - destruct (getOperationParameters_permutation doc ps) as [P2 _]. cbv zeta in P2.
    split; [|reflexivity]. rewrite sort_permutation, <- app_assoc, P1, P2.
    apply perm_zip5.
  - split; [|reflexivity]. rewrite sort_permutation, !app_nil_r, P1.
    now rewrite <- !app_assoc.
  - destruct (getOperationParameters_permutation doc ps) as [P2 B2].
    cbv zeta in P2, B2. rewrite B2. split; [|reflexivity].
    rewrite sort_permutation, <- app_assoc, P1, P2. apply perm_zip5.
  - rewrite B1. split; [|reflexivity]. rewrite sort_permutation, !app_nil_r, P1.
    reflexivity.
Qed.

(** ** Request bodies and response descriptors *)

(** X7: the body parameter has one text as location, property name and
    name: "formData" when the chosen media type is exactly
    "application/x-www-form-urlencoded" or "multipart/form-data", and "body"
    otherwise, also when no content is chosen.  It never has a default, so a
    required body counts among the required parameters. *)
Theorem getOperationRequestBody_location (openApi : Document)
    (body : RequestBodyObject) :
  let b := getOperationRequestBody openApi body in
  prop b = p_in b /\ name b = p_in b
  /\ mediaType b
     = option_map (fun c : Content => c_mediaType c) (selectedBodyContent body)
  /\ p_in b
     = match mediaType b with
       | Some m =>
           if String.eqb m "application/x-www-form-urlencoded"
              || String.eqb m "multipart/form-data"
           then "formData" else "body"
       | None => "body"
       end
  /\ default b = None /\ needsValue b = isRequired b
  /\ description b = orNull (rb_description body)
  /\ (isTrue (rb_required body) = true -> isRequired b = true).
Proof.
  intros b. subst b. unfold getOperationRequestBody, selectedBodyContent, needsValue.
  destruct (rb_content body) as [content|];
    [|cbn; rewrite andb_true_r; repeat split; auto].
  destruct (getContent content) as [c|];
    [|cbn; rewrite andb_true_r; repeat split; auto].
  destruct (truthy (s_ref (c_schema c)));
    cbn; rewrite andb_true_r; repeat split; auto.
  intros ->. reflexivity.
Qed.

(** X8: a response descriptor keeps the code it is asked for and the
    description of the response, an empty one being null.  Chosen content
    comes before the headers: the descriptor is then a body response with an
    empty name.  Without chosen content the first header, if any, is the
    surface; without headers either, the descriptor is the generic "any". *)
Theorem getOperationResponse_surface (openApi : Document)
    (response : ResponseObject) (responseCode : Z) :
  let r := getOperationResponse openApi response responseCode in
  code r = responseCode
  /\ description r = orNull (resp_description response)
  /\ match selectedContent response, resp_headers response with
     | Some _, _ => in_ r = "response" /\ name r = ""
     | None, Some ((header, _) :: _) =>
         in_ r = "header" /\ name r = header /\ type r = "string"
         /\ base r = "string"
     | None, _ =>
         in_ r = "response" /\ name r = "" /\ type r = "any" /\ base r = "any"
         /\ export r = "generic" /\ link r = None
     end.
Proof.
  intros r. subst r. unfold getOperationResponse, selectedContent.
  destruct (resp_content response) as [content|].
  - destruct (getContent content) as [c|].
    + destruct (truthy _); cbn; repeat split.
    + destruct (resp_headers response) as [[|[h ?] ?]|]; cbn; repeat split.
  - destruct (resp_headers response) as [[|[h ?] ?]|]; cbn; repeat split.
Qed.

(** ** Content negotiation on well-formed maps *)

Lemma lookup_Some_In V (o : JsObject V) (k : string) (v : V) :
  lookup k o = Some v -> In (k, v) o.
Proof.
  induction o as [|[k' v'] r IH]; [discriminate|]. simpl.
  destruct (String.eqb_spec k k') as [->|_].
  - intros E. injection E as ->. now left.
  - intros E. right. now apply IH.
Qed.

Lemma contentAt_In (content : ContentMap) (k : string) (c : Content) :
  contentAt content k = Some c ->
  c_mediaType c = k
  /\ exists m : MediaTypeObject,
       In (k, Some m) content /\ mt_schema m = SchemaValue (c_schema c).
Proof.
  unfold contentAt, schemaOf. destruct (lookup k content) as [[m|]|] eqn:L;
    try discriminate.
  destruct (mt_schema m) as [ | | |s] eqn:S; try discriminate.
  intros E. injection E as <-. cbn. split; [reflexivity|].
  exists m. split; [now apply lookup_Some_In|exact S].
Qed.

Lemma getContent_In (content : ContentMap) (c : Content) :
  getContent content = Some c ->
  exists m : MediaTypeObject,
    In (c_mediaType c, Some m) content /\ mt_schema m = SchemaValue (c_schema c).
Proof.
  unfold getContent.
  destruct (find _ (filter isBasicMediaType (keys content))) as [k|]; cbn [truthy].
  - destruct (negb (String.eqb k "")).
    + intros E. apply contentAt_In in E. destruct E as [<- E]. exact E.
    + destruct (find _ (keys content)) as [k'|]; cbn [truthy]; [|discriminate].
      destruct (negb (String.eqb k' "")); [|discriminate].
      intros E. apply contentAt_In in E. destruct E as [<- E]. exact E.
  - destruct (find _ (keys content)) as [k'|]; cbn [truthy]; [|discriminate].
    destruct (negb (String.eqb k' "")); [|discriminate].
    intros E. apply contentAt_In in E. destruct E as [<- E]. exact E.
Qed.

(** X9: the chosen content is always an entry of the map with its schema.
    On a map with distinct, non-empty media types: null is returned exactly
    when no entry carries a schema; the first basic media type with a schema
    is chosen, whatever stands before it; a media type that is not basic is
    chosen only when no basic one carries a schema. *)
Theorem getContent_on_well_formed_maps (content : ContentMap) :
  (forall c : Content,
      getContent content = Some c ->
      exists m : MediaTypeObject,
        In (c_mediaType c, Some m) content
        /\ mt_schema m = SchemaValue (c_schema c))
  /\ (NoDup (keys content) -> (forall k, In k (keys content) -> k <> "") ->
      (getContent content = None <->
       forall e, In e content -> carriesSchema e = false)
      /\ (forall (pre post : ContentMap) (k : string) (m : option MediaTypeObject)
                 (s : SchemaObject),
            content = pre ++ (k, m) :: post ->
            isBasicMediaType k = true -> entrySchema (k, m) = Some s ->
            (forall e, In e pre -> isBasicWithSchema e = false) ->
            getContent content = Some {| c_mediaType := k; c_schema := s |})
      /\ (forall c : Content,
            getContent content = Some c ->
            isBasicMediaType (c_mediaType c) = false ->
            forall e, In e content -> isBasicWithSchema e = false)).
Proof.
  split; [apply getContent_In|]. intros D N. split; [|split].
  - now apply getContent_null.
  - intros pre post k m s. now apply getContent_basic.
  - intros c G B.
    destruct (first_or_none isBasicWithSchema content)
      as [H|(pre & [k m] & post & E & Hx & Hpre)]; [exact H|].
    exfalso. unfold isBasicWithSchema in Hx. cbn [fst] in Hx.
    apply andb_true_iff in Hx. destruct Hx as [Bk C].
    destruct (entrySchema (k, m)) as [s|] eqn:S;
      [|unfold carriesSchema in C; rewrite S in C; discriminate].
    rewrite (@getContent_basic content D N pre post k m s E Bk S Hpre) in G.
    injection G as <-. cbn [c_mediaType] in B. rewrite Bk in B. discriminate B.
Qed.

(** ** Names and identifiers *)

Lemma includes_In (l : list string) (s : string) :
  includes l s = true <-> In s l.
Proof.
  unfold includes. rewrite existsb_exists. split.
  - intros (x & H & E). apply String.eqb_eq in E. now subst.
  - intros H. exists s. split; [exact H|apply String.eqb_refl].
Qed.

Lemma method_prefix_not_reserved (method word : string) :
  In method httpMethods -> In word javascriptReservedWords ->
  isReservedWord (camelCase (method ++ "-" ++ word)) = false.
Proof.
  intros M W.
  assert (H : forallb
                (fun m => forallb
                   (fun w => negb (isReservedWord (camelCase (m ++ "-" ++ w))))
                   javascriptReservedWords)
                httpMethods = true) by (vm_compute; reflexivity).
  rewrite forallb_forall in H. specialize (H method M).
  rewrite forallb_forall in H. specialize (H word W).
  now apply negb_true_iff in H.
Qed.

(** X10: with one of the seven methods, the name made from a declared
    identifier without "/" is never one of the JavaScript reserved words. *)
Theorem getOperationName_not_reserved (url method id : string) :
  In method httpMethods -> id <> "" ->
  (1 <? List.length (strSplit "/" id)) = false ->
  isReservedWord (getOperationName url method (Some id)) = false.
Proof.
  intros M N L. unfold getOperationName.
  assert (T : truthy (Some id) = true)
    by (simpl; now apply negb_true_iff, String.eqb_neq).
  rewrite T, L.
  destruct (isReservedWord (camelCase (clean id))) eqn:R; [|exact R].
  apply method_prefix_not_reserved; [exact M|].
  now apply includes_In.
Qed.

(** X11: a parameter name is never one of the words of [reservedWords]. *)
Theorem getOperationParameterName_not_reserved (value : string) :
  includes reservedWords (getOperationParameterName value) = false.
Proof.
  unfold getOperationParameterName, replaceReservedWords.
  destruct (includes reservedWords (camelCase (clean value))) eqn:E; [|exact E].
  reflexivity.
Qed.

(** X12: without a declared identifier, two operations have the same
    identifier only when they have the same method and the same path. *)
Theorem getOperationId_injective (url1 url2 method1 method2 : string) :
  In method1 httpMethods -> In method2 httpMethods ->
  getOperationId url1 method1 None = getOperationId url2 method2 None ->
  method1 = method2 /\ url1 = url2.
Proof.
  unfold getOperationId, httpMethods. cbn [truthy In].
  intros H1 H2 E.
  repeat match goal with
         | H : _ \/ _ |- _ => destruct H as [H|H]
         | H : False |- _ => destruct H
         end; subst method1 method2; cbn in E;
    first [discriminate E | injection E as E; now split].
Qed.

(** ** Services *)

Lemma pathOperations_length (doc : Document) (serviceName : string)
    (entry : string * option PathItemObject) :
  List.length (pathOperations doc serviceName entry) <= 7.
Proof.
  destruct entry as [path [po|]]; [|simpl; lia].
  unfold pathOperations, methodsOf. cbn [flat_map].
  rewrite !length_app.
  repeat match goal with
         | |- context [if isTagged ?n ?x then _ else _] =>
             destruct (isTagged n x); destruct x; cbn [List.length]
         end; lia.
Qed.

Lemma flat_map_length_le A B (f : A -> list B) (n : nat) (l : list A) :
  (forall x, List.length (f x) <= n) ->
  List.length (flat_map f l) <= n * List.length l.
Proof.
  intros H. induction l as [|x r IH]; simpl; [lia|].
  rewrite length_app. specialize (H x). lia.
Qed.

(** X13: every service stands for a declared tag; each of its operations
    has one of the seven methods, in upper case, and a path of the document;
    it has at most seven operations per path; its imports are those of its
    operations. *)
Theorem getServices_invariant (doc : Document) (s : Service) :
  In s (getServices doc) ->
  (exists tag : TagObject,
      In tag (tagsOf doc) /\ s = getService doc tag /\ svc_name s = tag_name tag
      /\ svc_description s = tag_description tag)
  /\ Forall (fun o : Operation =>
               In (op_method o) (map strUpper httpMethods)
               /\ In (op_path o) (keys (pathsOf doc)))
            (svc_operations s)
  /\ List.length (svc_operations s) <= 7 * List.length (pathsOf doc)
  /\ svc_imports s = flat_map (fun o : Operation => op_imports o) (svc_operations s).
Proof.
  intros H. unfold getServices in H. fold (tagsOf doc) in H.
  apply in_map_iff in H. destruct H as (tag & <- & Ht).
  split; [exists tag; repeat split; assumption|]. split; [|split].
  - apply Forall_forall. intros o Ho. apply getService_In in Ho.
    destruct Ho as (path & po & method & op & Hp & Hm & _ & ->).
    cbn [op_method op_path getOperation]. split.
    + apply in_map. unfold methodsOf in Hm. cbn [In] in Hm. unfold httpMethods.
      cbn [In].
      repeat match goal with
             | H : _ \/ _ |- _ => destruct H as [H|H]
             | H : False |- _ => destruct H
             | H : (_, _) = (_, _) |- _ => injection H as <- _
             end; tauto.
    + change path with (fst (path, Some po)). now apply in_map.
  - rewrite getService_operations. apply flat_map_length_le.
    intros x. apply pathOperations_length.
  - reflexivity.
Qed.

(** X14: an operation whose tags are all undeclared stands in no service. *)
Theorem undeclared_tags_dropped (doc : Document) (path method : string)
    (po : PathItemObject) (op : OperationObject) (tags : list string) (s : Service) :
  NoDup (keys (pathsOf doc)) ->
  In (path, Some po) (pathsOf doc) -> In (method, Some op) (methodsOf po) ->
  oo_tags op = Some tags ->
  (forall tag, In tag (tagsOf doc) -> ~ In (tag_name tag) tags) ->
  In s (getServices doc) ->
  operationsAt path method (svc_operations s) = [].
Proof.
  intros D Hp Hm T U H. unfold getServices in H. fold (tagsOf doc) in H.
  apply in_map_iff in H. destruct H as (tag & <- & Ht).
  rewrite getService_operations.
  rewrite (@operationsAt_unique doc (tag_name tag) path method _ po op D Hp Hm).
  destruct (isTagged (tag_name tag) (Some op)) eqn:G; [|reflexivity].
  apply isTagged_spec in G. destruct G as (tags' & E & _ & G).
  rewrite T in E. injection E as <-. exfalso. exact (U tag Ht G).
Qed.

(** ** Order of the results and of the errors *)

Lemma StronglySorted_filter A (R : A -> A -> Prop) (f : A -> bool) (l : list A) :
  StronglySorted R l -> StronglySorted R (filter f l).
Proof.
  intros S. induction S as [|x r S IH F]; simpl; [constructor|].
  destruct (f x); [|exact IH]. constructor; [exact IH|].
  apply Forall_forall. intros y Hy. apply filter_In in Hy.
  exact (proj1 (Forall_forall _ _) F y (proj1 Hy)).
Qed.

Lemma keepFirstFrom_sorted (R : OperationResponse -> OperationResponse -> Prop)
    (l seen : list OperationResponse) :
  StronglySorted R l -> StronglySorted R (keepFirstFrom seen l).
Proof.
  intros S. revert seen. induction S as [|x r S IH F]; intros seen; simpl;
    [constructor|].
  destruct (existsb _ seen); [apply IH|]. constructor; [apply IH|].
  apply Forall_forall. intros y Hy. apply keepFirstFrom_In in Hy.
  exact (proj1 (Forall_forall _ _) F y Hy).
Qed.

Lemma errorsOf_sorted (l : list OperationResponse) :
  StronglySorted codeLe l -> StronglySorted errorLe (errorsOf l).
Proof.
  intros S. induction S as [|x r S IH F]; simpl; [constructor|].
  destruct (description x) as [d|]; [|exact IH].
  destruct ((300 <=? code x)%Z && negb (String.eqb d "")); [|exact IH].
  constructor; [exact IH|]. apply Forall_forall. intros e He.
  apply errorsOf_In in He. destruct He as (y & Hy & _ & _ & _ & E).
  pose proof (proj1 (Forall_forall _ _) F y Hy) as Q.
  unfold errorLe, codeLe in *. cbn [e_code]. lia.
Qed.

(** X15: in a built operation the results and the errors are each in
    ascending order of their codes; the results have codes in [200, 300)
    other than 204 and the errors have codes of at least 300 and non-empty
    descriptions, so every result stands below every error. *)
Theorem getOperation_results_and_errors_ordered (openApi : Document)
    (url method : string) (op : OperationObject) (pathParams : OperationParameters) :
  let operation := getOperation openApi url method op pathParams in
  StronglySorted codeLe (op_results operation)
  /\ StronglySorted errorLe (op_errors operation)
  /\ Forall (fun r : OperationResponse =>
               (200 <= code r < 300)%Z /\ code r <> 204%Z)
            (op_results operation)
  /\ Forall (fun e : OperationError => (300 <= e_code e)%Z /\ e_description e <> "")
            (op_errors operation).
Proof.
  intros operation. subst operation. unfold getOperation.
  cbn [op_results op_errors].
  destruct (oo_responses op) as [responses|];
    [|repeat split; constructor].
  pose proof (proj1 (getOperationResponses_sorted openApi responses)) as S.
  split; [|split; [|split]].
  - rewrite getOperationResults_keepFirst. apply keepFirstFrom_sorted.
    unfold candidates.
    pose proof (StronglySorted_filter isSuccess S) as Q.
    destruct (filter isSuccess (getOperationResponses openApi responses));
      [repeat constructor|exact Q].
  - rewrite getOperationErrors_errorsOf. now apply errorsOf_sorted.
  - apply Forall_forall. intros r Hr.
    apply getOperationResults_isSuccess, isSuccess_qualifies in Hr. exact Hr.
  - apply Forall_forall. intros e He. rewrite getOperationErrors_errorsOf in He.
    apply errorsOf_In in He. destruct He as (r & _ & C & _ & N & E).
    rewrite E. tauto.
Qed.

(** ** The comparison functions *)

(** X16: the two comparison functions given to [sort] are consistent
    orderings: exchanging the arguments negates the result, and "not after"
    is transitive. *)
Theorem comparators_consistent :
  (forall a b : OperationParameter, sortByRequired a b = (- sortByRequired b a)%Z)
  /\ (forall a b c : OperationParameter,
        (sortByRequired a b <= 0)%Z -> (sortByRequired b c <= 0)%Z ->
        (sortByRequired a c <= 0)%Z)
  /\ (forall a b : OperationResponse, compareCode a b = (- compareCode b a)%Z)
  /\ (forall a b c : OperationResponse,
        (compareCode a b <= 0)%Z -> (compareCode b c <= 0)%Z ->
        (compareCode a c <= 0)%Z).
Proof.
  split; [|split; [|split]].
  - intros a b. unfold sortByRequired.
    destruct (needsValue a), (needsValue b); reflexivity.
  - intros a b c. unfold sortByRequired.
    destruct (needsValue a), (needsValue b), (needsValue c); cbn; lia.
  - intros a b. unfold compareCode.
    destruct (Z.ltb_spec (code a) (code b)), (Z.ltb_spec (code b) (code a));
      try reflexivity; lia.
  - intros a b c. unfold compareCode.
    destruct (Z.ltb_spec (code a) (code b)), (Z.ltb_spec (code b) (code a)),
      (Z.ltb_spec (code b) (code c)), (Z.ltb_spec (code c) (code b)),
      (Z.ltb_spec (code a) (code c)), (Z.ltb_spec (code c) (code a)); lia.
Qed.

(** ** Built parameters *)

(** X17: a built parameter keeps the declared name as property name and
    the declared location, has the sanitized name, no media type, and an
    empty description as null; a parameter declared as required is required
    whatever its schema says; a parameter that is itself a reference has no
    default. *)
Theorem getOperationParameter_keeps_declaration (openApi : Document)
    (parameter : ParameterObject) :
  let p := getOperationParameter openApi parameter in
  prop p = par_name parameter /\ p_in p = par_in parameter
  /\ name p = getOperationParameterName (par_name parameter)
  /\ mediaType p = None
  /\ description p = orNull (par_description parameter)
  /\ deprecated p = Some (isTrue (par_deprecated parameter))
  /\ isDefinition p = false
  /\ (isTrue (par_required parameter) = true -> isRequired p = true)
  /\ (truthy (par_ref parameter) = true ->
      default p = None /\ export p = "reference"
      /\ isRequired p = isTrue (par_required parameter)).
Proof.
  intros p. subst p. unfold getOperationParameter.
  destruct (truthy (par_ref parameter)).
  - cbn. repeat split; auto.
  - destruct (par_schema parameter) as [schema|];
      [|cbn; repeat split; auto; discriminate].
    match goal with
    | |- context [match s_ref ?x with Some _ => _ | None => _ end] =>
        destruct (s_ref x)
    end; cbn; repeat split; auto; try discriminate.
    intros ->. reflexivity.
Qed.

(** ** Results of an operation *)

(** X18: an operation has no result at all exactly when it declares no
    responses; it then has no error and no response header either. *)
Theorem getOperation_results_empty (openApi : Document) (url method : string)
    (op : OperationObject) (pathParams : OperationParameters) :
  let operation := getOperation openApi url method op pathParams in
  (op_results operation = [] <-> oo_responses op = None)
  /\ (oo_responses op = None ->
      op_errors operation = [] /\ op_responseHeader operation = None).
Proof.
  intros operation. subst operation. unfold getOperation.
  cbn [op_results op_errors op_responseHeader].
  destruct (oo_responses op) as [responses|].
  - split; [|discriminate]. split; [|discriminate].
    intros E. exfalso. exact (getOperationResults_nonempty _ E).
  - repeat split.
Qed.

Lemma sort_length A (compare : A -> A -> Z) (l : list A) :
  List.length (sort compare l) = List.length l.
Proof. apply Permutation_length, sort_permutation. Qed.

(** X19: a responses map gives one descriptor for each key with a non-zero
    code and none for the other keys. *)
Theorem getOperationResponses_count (openApi : Document)
    (responses : JsObject ResponseObject) :
  List.length (getOperationResponses openApi responses)
  = List.length (filter hasPositiveCode responses)
  /\ List.length (getOperationResponses openApi responses) <= List.length responses.
Proof.
  assert (E : List.length (getOperationResponses openApi responses)
              = List.length (filter hasPositiveCode responses)).
  { rewrite getOperationResponses_sort, sort_length. unfold collectResponses.
    induction responses as [|[key r] l IH]; [reflexivity|].
    cbn [flat_map filter]. rewrite length_app, IH. unfold hasPositiveCode at 2.
    cbn [fst]. destruct (getOperationResponseCode key) as [c|]; [|reflexivity].
    destruct (c =? 0)%Z; reflexivity. }
  split; [exact E|]. rewrite E. apply filter_length_le.
Qed.

(** ** Names without letters *)

Lemma cleanChars_no_letter (l : chars) :
  existsb isLetter l = false -> cleanChars l = [].
Proof.
  intros H. rewrite cleanChars_eq. unfold stripLeadingNonLetters.
  assert (D : dropWhile (fun c => negb (isLetter c)) l = []).
  { induction l as [|c r IH]; [reflexivity|]. cbn [existsb] in H.
    apply orb_false_iff in H. destruct H as [Hc H]. simpl. rewrite Hc. cbn.
    now apply IH. }
  now rewrite D.
Qed.

Lemma cleanChars_letter (l : chars) :
  existsb isLetter l = true ->
  exists c r, cleanChars l = c :: r /\ isLetter c = true.
Proof.
  intros H. rewrite cleanChars_eq. unfold stripLeadingNonLetters.
  induction l as [|c r IH]; [discriminate|]. cbn [existsb] in H. simpl.
  destruct (isLetter c) eqn:L.
  - cbn. rewrite (@implb_elim _ _ (letter_wordOrDash c) L).
    exists c, (replaceNonWord false r). now split.
  - cbn. apply IH. exact H.
Qed.

(** The loop of [preserveCamelCase] leaves the first character in place:
    a dash is put before the last character read only after two characters
    at least. *)
Lemma preserveCamelCaseLoop_first (rest before : chars) (f : ascii) (a b c : bool) :
  (c = true -> before <> []) ->
  exists t, preserveCamelCaseLoop rest (before ++ [f]) a b c = f :: t.
Proof.
  revert before a b c. induction rest as [|x rest IH]; intros before a b c I.
  - cbn. rewrite rev_app_distr. cbn. eauto.
  - cbn [preserveCamelCaseLoop].
    destruct (a && isLetter x && Ascii.eqb (toUpper x) x).
    + apply (IH (x :: "-"%char :: before) _ _ _). discriminate.
    + destruct (b && c && isLetter x && Ascii.eqb (toLower x) x) eqn:Q.
      * assert (C : c = true).
        { destruct c; [reflexivity|]. now rewrite andb_false_r in Q. }
        specialize (I C). destruct before as [|p before]; [congruence|].
        cbn [app insertBeforeLast].
        apply (IH (x :: p :: "-"%char :: before) _ _ _). discriminate.
      * apply (IH (x :: before) _ _ _). discriminate.
Qed.

Lemma camelCaseChars_letter (c : ascii) (r : chars) :
  isLetter c = true -> forallb isWordOrDash (c :: r) = true ->
  exists t, camelCaseChars (c :: r) = toLower c :: t.
Proof.
  intros L W. unfold camelCaseChars. rewrite (trim_wordOrDash (c :: r) W).
  destruct r as [|c' r']; [eauto|].
  assert (H : exists t,
    (if existsb isUpper (c :: c' :: r') then preserveCamelCase (c :: c' :: r')
     else c :: c' :: r') = c :: t).
  { destruct (existsb isUpper (c :: c' :: r')); [|eauto].
    unfold preserveCamelCase. cbn [preserveCamelCaseLoop andb].
    apply (@preserveCamelCaseLoop_first (c' :: r') [] c _ _ false). discriminate. }
  destruct H as [t ->].
  assert (S : isSeparator c = false /\ isDigit c = false)
    by (clear - L; destruct c as [[] [] [] [] [] [] [] []]; vm_compute in L;
        try discriminate L; vm_compute; split; reflexivity).
  destruct S as [S1 S2].
  assert (S' : isSeparator (toLower c) = false /\ isDigit (toLower c) = false)
    by (clear - L; destruct c as [[] [] [] [] [] [] [] []]; vm_compute in L;
        try discriminate L; vm_compute; split; reflexivity).
  destruct S' as [S3 S4].
  cbn [dropWhile]. rewrite S1. cbn [map replaceSeparators]. rewrite S3.
  cbn [replaceAfterDigits]. rewrite S4. cbn [andb]. eauto.
Qed.

Lemma camelCase_clean_first (value : string) :
  if existsb isLetter (ofString value)
  then exists c rest, camelCase (clean value) = String c rest /\ isLower c = true
  else camelCase (clean value) = "".
Proof.
  unfold camelCase, clean. rewrite ofString_toString.
  destruct (existsb isLetter (ofString value)) eqn:E.
  - destruct (cleanChars_letter _ E) as (c & r & C & L).
    pose proof (cleanChars_wordOrDash (ofString value)) as W. rewrite C in W.
    rewrite C. destruct (camelCaseChars_letter c r L W) as [t ->].
    exists (toLower c), (toString t). split; [reflexivity|].
    clear - L. destruct c as [[] [] [] [] [] [] [] []]; vm_compute in L;
      try discriminate L; vm_compute; reflexivity.
  - now rewrite (cleanChars_no_letter _ E).
Qed.

(** X20: a parameter name is empty exactly when the declared name has no
    ASCII letter; otherwise it starts with a lower-case letter or, for a
    reserved word, with an underscore.  The name made from a declared
    operation identifier is empty when the last segment of the identifier
    has no ASCII letter. *)
Theorem names_without_letters :
  (forall value : string,
      if existsb isLetter (ofString value)
      then exists c rest,
             getOperationParameterName value = String c rest
             /\ (isLower c = true \/ c = "_"%char)
      else getOperationParameterName value = "")
  /\ (forall url method id : string,
        id <> "" -> existsb isLetter (ofString (lastSegment id)) = false ->
        getOperationName url method (Some id) = "").
Proof.
  split.
  - intros value. pose proof (camelCase_clean_first value) as H.
    unfold getOperationParameterName, replaceReservedWords.
    destruct (existsb isLetter (ofString value)).
    + destruct H as (c & rest & -> & L).
      destruct (includes reservedWords (String c rest)).
      * exists "_"%char, (String c rest). split; [reflexivity|now right].
      * exists c, rest. split; [reflexivity|now left].
    + rewrite H. reflexivity.
  - intros url method id N E. unfold getOperationName.
    assert (T : truthy (Some id) = true)
      by (simpl; now apply negb_true_iff, String.eqb_neq).
    rewrite T. fold (lastSegment id).
    pose proof (camelCase_clean_first (lastSegment id)) as H. rewrite E in H.
    rewrite H. reflexivity.
Qed.

(** ** Names made from the URL *)

Lemma startsWith_brace (l : chars) :
  existsb (Ascii.eqb "{") l = false -> startsWith apiVersionToken l = None.
Proof.
  destruct l as [|c r]; [reflexivity|]. cbn [existsb]. intros H.
  apply orb_false_iff in H. destruct H as [H _].
  unfold apiVersionToken. cbn [ofString list_ascii_of_string startsWith].
  now rewrite H.
Qed.

Lemma matchApiVersion_no_brace (l : chars) :
  existsb (Ascii.eqb "{") l = false -> matchApiVersion l = None.
Proof.
  induction l as [|c r IH]; intros H.
  - reflexivity.
  - cbn [matchApiVersion]. rewrite (startsWith_brace (c :: r) H).
    cbn [existsb] in H. apply orb_false_iff in H. destruct H as [_ H].
    rewrite (IH H). destruct (Ascii.eqb c "/"); reflexivity.
Qed.

Lemma removeApiVersion_no_brace (l : chars) :
  existsb (Ascii.eqb "{") l = false -> removeApiVersion 0 l = l.
Proof.
  induction l as [|c r IH]; intros H; [reflexivity|].
  cbn [removeApiVersion]. rewrite (matchApiVersion_no_brace (c :: r) H).
  cbn [existsb] in H. apply orb_false_iff in H. destruct H as [_ H].
  now rewrite (IH H).
Qed.

Lemma removePlaceholders_no_brace (l : chars) :
  existsb (Ascii.eqb "{") l = false -> removePlaceholders 0 l = l.
Proof.
  induction l as [|c r IH]; intros H; [reflexivity|].
  cbn [existsb] in H. apply orb_false_iff in H. destruct H as [Hc H].
  cbn [removePlaceholders]. rewrite Ascii.eqb_sym in Hc. rewrite Hc.
  now rewrite (IH H).
Qed.

(** X21: the text taken from a URL for the name of an operation has no
    "/"; a URL without "{" keeps all its characters, each "/" being turned
    into "-". *)
Theorem urlWithoutPlaceholders_slashes (url : string) :
  existsb (Ascii.eqb "/") (ofString (urlWithoutPlaceholders url)) = false
  /\ (existsb (Ascii.eqb "{") (ofString url) = false ->
      urlWithoutPlaceholders url = toString (slashesToDashes (ofString url))).
Proof.
  unfold urlWithoutPlaceholders. split.
  - rewrite ofString_toString.
    generalize (removePlaceholders 0 (removeApiVersion 0 (ofString url))).
    intros l. induction l as [|c r IH]; [reflexivity|].
    cbn [slashesToDashes map existsb]. fold (slashesToDashes r). rewrite IH.
    rewrite orb_false_r. rewrite Ascii.eqb_sym.
    destruct (Ascii.eqb c "/") eqn:E; [reflexivity|].
    now rewrite E.
  - intros H. rewrite (removeApiVersion_no_brace _ H).
    now rewrite (removePlaceholders_no_brace _ H).
Qed.

(** ** Deduplication and the response header *)

(** X22: the comparison of the deduplication does not look at [in] and
    [name]: when a success response that is not a header is followed by a
    success response that compares equal to it, the second one is dropped,
    also when it is a header response, and the response header is null. *)
Theorem header_result_lost_by_deduplication (r1 r2 : OperationResponse) :
  isSuccess r1 = true -> isSuccess r2 = true -> areEqual r1 r2 = true ->
  in_ r1 <> "header" ->
  getOperationResults [r1; r2] = [r1]
  /\ getOperationResponseHeader (getOperationResults [r1; r2]) = None.
Proof.
  intros S1 S2 E N.
  assert (R : getOperationResults [r1; r2] = [r1]).
  { rewrite getOperationResults_keepFirst. unfold candidates. cbn [filter].
    rewrite S1, S2. unfold keepFirst. cbn [keepFirstFrom existsb app].
    now rewrite E. }
  split; [exact R|]. rewrite R. unfold getOperationResponseHeader. cbn [find].
  apply String.eqb_neq in N. now rewrite N.
Qed.

End Services.

(** * Concrete documents

    The theorems above hold for any reference lookup and any model resolver.
    The instances below fix simple ones, to run the extraction on concrete
    documents: references resolve to themselves, a [$ref] is typed by its
    text, and an inline schema by the name of its type. *)

Definition Doc : Type := Document unit string unit.

Definition leafModel (t : string) : Model string Z :=
  {| name := ""; export := "generic"; type := t; base := t;
     template := None; link := None; description := None;
     deprecated := None; default := None;
     isDefinition := false; isReadOnly := false; isRequired := false;
     isNullable := false; constraints := noConstraints Z;
     imports := []; enum := []; enums := []; properties := [] |}.

(** An array model: the element model is its link. *)
Definition arrayModel (element : option (Model string Z)) : Model string Z :=
  {| name := ""; export := "array"; type := "list"; base := "list";
     template := None; link := element; description := None;
     deprecated := None; default := None;
     isDefinition := false; isReadOnly := false; isRequired := false;
     isNullable := false; constraints := noConstraints Z;
     imports := []; enum := []; enums := []; properties := [] |}.

Definition response (c : Z) (d : option string) (m : Model string Z)
    : OperationResponse string Z :=
  {| in_ := "response"; code := c;
     r_model :=
       {| name := ""; export := export m; type := type m; base := base m;
          template := template m; link := link m; description := d;
          deprecated := None; default := None;
          isDefinition := false; isReadOnly := false; isRequired := false;
          isNullable := false; constraints := noConstraints Z;
          imports := []; enum := []; enums := []; properties := [] |} |}.

Definition sameRef {T : Type} (doc : Doc) (x : T) : T := x.
Definition typeOfRef (ref : string) : Model string Z := leafModel ref.
Definition modelOfSchema (doc : Doc) (prefix : string) (schema : SchemaObject string)
    : Model string Z := leafModel (s_body schema).
Definition noDefault (schema : SchemaObject string) : option string := None.
Definition samePattern (p : option string) : option string := p.

Definition buildOperation :=
  getOperation (@sameRef _) (@sameRef _) (@sameRef _) (@sameRef _)
    typeOfRef modelOfSchema noDefault samePattern.
Definition classifyParameters :=
  getOperationParameters (@sameRef _) (@sameRef _) typeOfRef modelOfSchema
    noDefault samePattern.
Definition classifyResponses :=
  getOperationResponses (@sameRef _) (@sameRef _) typeOfRef modelOfSchema samePattern.
Definition buildService :=
  getService (@sameRef _) (@sameRef _) (@sameRef _) (@sameRef _)
    typeOfRef modelOfSchema noDefault samePattern.
Definition buildServices :=
  getServices (@sameRef _) (@sameRef _) (@sameRef _) (@sameRef _)
    typeOfRef modelOfSchema noDefault samePattern.

Definition parameter (n location : string) (required : bool) : ParameterObject string :=
  {| par_ref := None; par_name := n; par_in := location;
     par_description := None; par_deprecated := None;
     par_required := Some required;
     par_schema := Some {| s_ref := None; s_body := "string" |} |}.

Definition operationObject (tags : option (list string))
    (parameters : option (list (ParameterObject string)))
    (responses : option (JsObject (ResponseObject string unit)))
    : OperationObject string unit :=
  {| oo_operationId := None; oo_summary := None; oo_description := None;
     oo_deprecated := None; oo_tags := tags; oo_parameters := parameters;
     oo_requestBody := None; oo_responses := responses |}.

Definition pathItem (get post : option (OperationObject string unit))
    : PathItemObject string unit :=
  {| pi_parameters := None; pi_get := get; pi_post := post; pi_put := None;
     pi_delete := None; pi_patch := None; pi_options := None; pi_head := None |}.

Definition headerResponse : ResponseObject string unit :=
  {| resp_description := Some "Limited"; resp_content := None;
     resp_headers := Some [("X-RateLimit", tt); ("X-Other", tt)] |}.

Definition twoTags : Doc :=
  {| doc_tags := Some [ {| tag_name := "activity"; tag_description := None |};
                        {| tag_name := "admin"; tag_description := None |} ];
     doc_paths :=
       Some [ ("/threads",
               Some (pathItem
                       (Some (operationObject (Some ["activity"; "admin"]) None None))
                       (Some (operationObject None None None)))) ];
     doc_components := tt |}.

Definition any200 : OperationResponse string Z := response 200 None (leafModel "any").
Definition any201 : OperationResponse string Z := response 201 None (leafModel "any").
Definition notFound : OperationResponse string Z :=
  response 404 (Some "Not found") (leafModel "any").
Definition silent500 : OperationResponse string Z := response 500 None (leafModel "any").

Definition taggedTwice : OperationObject string unit :=
  operationObject (Some ["activity"; "admin"]) None None.
Definition untagged : OperationObject string unit := operationObject None None None.
Definition threads : PathItemObject string unit :=
  pathItem (Some taggedTwice) (Some untagged).
Definition activity : TagObject := {| tag_name := "activity"; tag_description := None |}.
Definition admin : TagObject := {| tag_name := "admin"; tag_description := None |}.

Definition searchOperation : OperationObject string unit :=
  operationObject None
    (Some [ parameter "q" "query" false; parameter "api-version" "query" true;
            parameter "id" "path" true ])
    None.

(** * The theorems at concrete inputs *)

(** Two success responses of the same type: the second one has a code in
    [200, 300) other than 204 and is not among the results. *)
Lemma getOperationResults_drops_equal_success :
  In any201 [any200; any201] /\ qualifies any201
  /\ ~ In any201 (getOperationResults [any200; any201])
  /\ getOperationResults [any200; any201] = [any200].
Proof.
  split; [right; now left|]. split; [unfold qualifies; simpl; lia|].
  split; [|reflexivity]. intros [H|[]]. discriminate H.
Qed.

Lemma getOperationResults_success_or_void_witness :
  In any200 (getOperationResults [any200; any201])
  /\ getOperationResults [notFound] = [voidResult string Z].
Proof.
  split.
  - apply (proj1 (proj2
             (getOperationResults_success_or_void (@sameRef _) (@sameRef _)
                (@sameRef _) (@sameRef _) typeOfRef modelOfSchema noDefault
                samePattern [any200; any201]))
             [] [any201] any200); reflexivity.
  - apply (proj1 (proj2 (proj2 (proj2
             (getOperationResults_success_or_void (@sameRef _) (@sameRef _)
                (@sameRef _) (@sameRef _) typeOfRef modelOfSchema noDefault
                samePattern [notFound]))))).
    intros y [<-|[]] [Q _]. simpl in Q. lia.
Defined.

Lemma getOperationResults_deduplicates_witness :
  exists before after : list (OperationResponse string Z),
    getOperationResults [any200; any201]
    = before
      ++ (if existsb (fun item : OperationResponse string Z => areEqual item any201)
                     [any200]
          then [] else [any201])
      ++ after
    /\ (forall y, In y before -> In y [any200])
    /\ (forall y, In y after -> In y []).
Proof.
  exact (proj2 (proj2 (getOperationResults_deduplicates [any200; any201]))
           [any200] [] any201 eq_refl).
Defined.

Lemma getOperationErrors_spec_witness :
  In {| e_code := 404%Z; e_description := "Not found" |}
     (getOperationErrors [any200; notFound; silent500])
  /\ ~ In {| e_code := 500%Z; e_description := "Failure" |}
         (getOperationErrors [any200; notFound; silent500]).
Proof.
  split.
  - apply (proj1 (proj2 (getOperationErrors_spec [any200; notFound; silent500]))).
    exists notFound. simpl. repeat split; try lia; auto. discriminate.
  - intros H.
    apply (proj2 (proj2 (getOperationErrors_spec [any200; notFound; silent500]))
             500%Z) in H; [apply H; reflexivity|].
    intros r [<-|[<-|[<-|[]]]] E; try discriminate E. now left.
Defined.

Lemma header_response_and_responseHeader_witness :
  let r :=
    getOperationResponse (@sameRef _) typeOfRef modelOfSchema samePattern
      twoTags headerResponse 200%Z in
  in_ r = "header" /\ name r = "X-RateLimit" /\ type r = "string"
  /\ base r = "string" /\ code r = 200%Z.
Proof.
  exact (proj1
           (header_response_and_responseHeader (@sameRef _) (@sameRef _)
              (@sameRef _) (@sameRef _) typeOfRef modelOfSchema noDefault
              samePattern)
           twoTags headerResponse 200%Z "X-RateLimit" tt [("X-Other", tt)]
           eq_refl eq_refl).
Defined.

Lemma operations_grouped_by_tag_witness :
  let o :=
    buildOperation twoTags "/threads" "get" taggedTwice (classifyParameters twoTags []) in
  operationsAt "/threads" "get" (svc_operations (buildService twoTags activity)) = [o]
  /\ operationsAt "/threads" "get" (svc_operations (buildService twoTags admin)) = [o]
  /\ operationsAt "/threads" "post" (svc_operations (buildService twoTags admin)) = [].
Proof.
  assert (D : NoDup (keys (pathsOf twoTags)))
    by (repeat constructor; simpl; tauto).
  destruct (operations_grouped_by_tag (@sameRef _) (@sameRef _) (@sameRef _)
              (@sameRef _) typeOfRef modelOfSchema noDefault samePattern twoTags)
    as (_ & _ & K3 & K4).
  split; [|split].
  - apply (K3 "/threads" threads "get" taggedTwice ["activity"; "admin"]
             activity admin D); simpl; auto.
  - apply (K3 "/threads" threads "get" taggedTwice ["activity"; "admin"]
             activity admin D); simpl; auto.
  - apply (K4 "/threads" threads "post" untagged admin D); simpl; auto.
Defined.

Lemma areEqual_ignores_one_sided_link_witness :
  areEqual (arrayModel (Some (leafModel "string"))) (arrayModel None) = true.
Proof.
  apply (proj1 (areEqual_ignores_one_sided_link string Z)); try reflexivity.
  right. reflexivity.
Defined.

Lemma parameters_required_first_witness :
  map (@prop string Z)
    (op_parameters
       (buildOperation twoTags "/search" "get" searchOperation
          (classifyParameters twoTags [parameter "p" "header" false])))
  = ["id"; "p"; "q"].
Proof.
  unfold buildOperation, classifyParameters.
  rewrite (proj1 (parameters_required_first (@sameRef _) (@sameRef _) (@sameRef _)
                    (@sameRef _) typeOfRef modelOfSchema noDefault samePattern
                    twoTags "/search" "get" searchOperation
                    [parameter "p" "header" false])).
  reflexivity.
Defined.

Lemma getOperationResponseCode_keys_witness :
  getOperationResponseCode " -200 OK" = Some 200%Z
  /\ getOperationResponseCode "2XX" = Some 2%Z
  /\ getOperationResponseCode "0x1F" = Some 31%Z
  /\ getOperationResponseCode "0x" = None
  /\ getOperationResponseCode "X2" = None.
Proof.
  destruct (getOperationResponseCode_keys (@sameRef _) (@sameRef _)
              typeOfRef modelOfSchema samePattern) as (_ & K2 & K3 & K4 & _).
  split; [|split; [|split; [|split]]].
  - exact (K2 [" "%char] ["-"%char] (ofString "200") (ofString " OK") eq_refl
             (or_intror (or_intror eq_refl)) ltac:(discriminate) eq_refl eq_refl
             eq_refl).
  - exact (K2 [] [] (ofString "2") (ofString "XX") eq_refl
             (or_introl eq_refl) ltac:(discriminate) eq_refl eq_refl eq_refl).
  - exact (K3 [] [] (ofString "1F") [] "x"%char eq_refl (or_introl eq_refl)
             (or_introl eq_refl) eq_refl eq_refl eq_refl).
  - exact (K3 [] [] [] [] "x"%char eq_refl (or_introl eq_refl)
             (or_introl eq_refl) eq_refl eq_refl eq_refl).
  - apply K4; [discriminate|right; reflexivity].
Defined.

(** Whichever way "a key matching one or more decimal digits" is read, the
    keys are not treated as claimed: "2XX" is not made of digits and gets the
    code 2; "X2" has a digit and gets no code. *)
Lemma response_keys_not_as_claimed :
  ~ keysAsClaimed allDigits /\ ~ keysAsClaimed hasDigit.
Proof.
  split; intros [_ H].
  - destruct (H "2XX" ltac:(discriminate)) as [_ K].
    specialize (K eq_refl). discriminate K.
  - destruct (H "X2" ltac:(discriminate)) as [K _].
    destruct (K eq_refl) as (n & P & _). discriminate P.
Qed.



(** * The further properties at concrete inputs *)

Definition text200 : OperationResponse string Z := response 200 None (leafModel "string").
Definition text201 : OperationResponse string Z := response 201 None (leafModel "string").

(** A response whose surface is a header, as [getOperationResponse] builds
    it. *)
Definition rateLimit201 : OperationResponse string Z :=
  getOperationResponse (@sameRef _) typeOfRef modelOfSchema samePattern
    twoTags headerResponse 201%Z.

Definition schemaOfType (t : string) : option (MediaTypeObject string) :=
  Some {| mt_schema := SchemaValue {| s_ref := None; s_body := t |} |}.

Definition xmlThenJson : ContentMap string :=
  [("application/xml", schemaOfType "xml"); ("application/json", schemaOfType "json")].

Definition formBody : RequestBodyObject string :=
  {| rb_description := None; rb_required := Some true;
     rb_content := Some [("multipart/form-data", schemaOfType "object")] |}.

Definition strayTag : Doc :=
  {| doc_tags := Some [activity];
     doc_paths :=
       Some [ ("/stray",
               Some (pathItem (Some (operationObject (Some ["other"]) None None))
                              None)) ];
     doc_components := tt |}.

Lemma getOperationResults_pairwise_distinct_witness :
  areEqual any200 text201 = false /\ areEqual text201 any200 = false.
Proof.
  exact (getOperationResults_pairwise_distinct [any200; text201] [any200] []
           text201 any200 eq_refl (or_introl eq_refl)).
Defined.

Lemma getOperationRequestBody_location_witness :
  let b :=
    getOperationRequestBody typeOfRef modelOfSchema samePattern twoTags formBody in
  p_in b = "formData" /\ isRequired b = true.
Proof.
  destruct (getOperationRequestBody_location typeOfRef modelOfSchema samePattern
              twoTags formBody) as (_ & _ & _ & P & _ & _ & _ & R).
  split; [exact P|exact (R eq_refl)].
Defined.

Lemma getContent_on_well_formed_maps_witness :
  getContent xmlThenJson
  = Some {| c_mediaType := "application/json";
            c_schema := {| s_ref := None; s_body := "json" |} |}.
Proof.
  assert (D : NoDup (keys xmlThenJson))
    by (repeat constructor; simpl; intuition discriminate).
  assert (N : forall k, In k (keys xmlThenJson) -> k <> "")
    by (intros k [<-|[<-|[]]]; discriminate).
  apply (proj1 (proj2 (proj2 (getContent_on_well_formed_maps xmlThenJson) D N))
           [("application/xml", schemaOfType "xml")] [] "application/json"
           (schemaOfType "json")); try reflexivity.
  intros e [<-|[]]. reflexivity.
Defined.

Lemma getOperationName_not_reserved_witness :
  isReservedWord (getOperationName "/x" "get" (Some "delete")) = false.
Proof.
  exact (@getOperationName_not_reserved "/x" "get" "delete" (or_introl eq_refl)
           ltac:(discriminate) eq_refl).
Defined.

Lemma getOperationId_injective_witness : "get" = "get" /\ "/a" = "/a".
Proof.
  exact (@getOperationId_injective "/a" "/a" "get" "get" (or_introl eq_refl)
           (or_introl eq_refl) eq_refl).
Defined.

Lemma getServices_invariant_witness :
  List.length (svc_operations (buildService twoTags activity)) <= 7 * 1.
Proof.
  exact (proj1 (proj2 (proj2
           (getServices_invariant (@sameRef _) (@sameRef _) (@sameRef _)
              (@sameRef _) typeOfRef modelOfSchema noDefault samePattern
              twoTags (buildService twoTags activity) (or_introl eq_refl))))).
Defined.

Lemma undeclared_tags_dropped_witness :
  operationsAt "/stray" "get" (svc_operations (buildService strayTag activity)) = [].
Proof.
  apply (@undeclared_tags_dropped _ _ _ _ _ (@sameRef _) (@sameRef _) (@sameRef _)
           (@sameRef _) typeOfRef modelOfSchema noDefault samePattern
           strayTag "/stray" "get"
           (pathItem (Some (operationObject (Some ["other"]) None None)) None)
           (operationObject (Some ["other"]) None None) ["other"]).
  - repeat constructor; simpl; tauto.
  - left. reflexivity.
  - left. reflexivity.
  - reflexivity.
  - intros tag [<-|[]] [H|[]]. discriminate H.
  - left. reflexivity.
Defined.

Lemma comparators_consistent_witness : (compareCode any200 notFound <= 0)%Z.
Proof.
  apply (proj2 (proj2 (proj2 (comparators_consistent string Z)))
           any200 any201 notFound); vm_compute; discriminate.
Defined.

Lemma getOperationParameter_keeps_declaration_witness :
  isRequired
    (getOperationParameter (@sameRef _) typeOfRef modelOfSchema noDefault
       samePattern twoTags (parameter "id" "path" true)) = true.
Proof.
  destruct (getOperationParameter_keeps_declaration (@sameRef _) typeOfRef
              modelOfSchema noDefault samePattern twoTags
              (parameter "id" "path" true))
    as (_ & _ & _ & _ & _ & _ & _ & R & _).
  exact (R eq_refl).
Defined.

Lemma getOperation_results_empty_witness :
  let operation :=
    buildOperation twoTags "/threads" "post" untagged (classifyParameters twoTags []) in
  op_errors operation = [] /\ op_responseHeader operation = None.
Proof.
  exact (proj2
           (getOperation_results_empty (@sameRef _) (@sameRef _) (@sameRef _)
              (@sameRef _) typeOfRef modelOfSchema noDefault samePattern
              twoTags "/threads" "post" untagged (classifyParameters twoTags []))
           eq_refl).
Defined.

Lemma names_without_letters_witness :
  getOperationName "/x" "get" (Some "2024/123") = "".
Proof.
  exact (proj2 names_without_letters "/x" "get" "2024/123" ltac:(discriminate)
           eq_refl).
Defined.

Lemma urlWithoutPlaceholders_slashes_witness :
  urlWithoutPlaceholders "/v1/items" = "-v1-items".
Proof.
  exact (proj2 (urlWithoutPlaceholders_slashes "/v1/items") eq_refl).
Defined.

Lemma header_result_lost_by_deduplication_witness :
  in_ rateLimit201 = "header"
  /\ getOperationResults [text200; rateLimit201] = [text200]
  /\ getOperationResponseHeader (getOperationResults [text200; rateLimit201]) = None.
Proof.
  split; [reflexivity|].
  exact (header_result_lost_by_deduplication text200 rateLimit201 eq_refl eq_refl
           eq_refl ltac:(discriminate)).
Defined.
